(** * rollup-plugin-hoist-import-deps: a shallow embedding of [src/index.js]

    The plugin rewrites dynamic imports in two passes.  [transform] wraps every
    [import(...)] of a module in a call of [__loadDeps] that carries a marker
    string; [generateBundle] finds the markers in the emitted chunks and
    replaces them by the static imports of the chunk that is loaded.

    The embedding follows the source function by function.  The three
    collaborators that are not part of the repository are modelled next to it:
    - the host's parser ([this.parse]) is a parameter of the hooks;
    - [estree-walker]'s [walk] is the depth-first pre-order traversal of the tree;
    - [magic-string] is modelled by its list of chunks (module [MagicString]).

    JavaScript strings are Rocq strings: one character per code unit, code units
    below 256. *)

From Stdlib Require Import String Ascii List Arith Bool Lia ZArith DecimalString.
Import ListNotations.

Local Open Scope list_scope.
Local Open Scope string_scope.

Set Implicit Arguments.

(** ** JavaScript strings *)

Module JS.

(** The double-quote character, and a string between two of them. *)
Definition dquote : string := String "034"%char EmptyString.
Definition quoted (s : string) : string := dquote ++ s ++ dquote.

(** [s.startsWith(p)] *)
Definition startsWith (p s : string) : bool := String.prefix p s.

(** [s.substring(a, b)]: the arguments are swapped when [a > b] and clamped
    to the length of [s]. *)
Definition substring2 (a b : nat) (s : string) : string :=
  String.substring (Nat.min a b) (Nat.max a b - Nat.min a b) s.

(** [s.substring(a)] *)
Definition substring1 (a : nat) (s : string) : string :=
  String.substring a (String.length s - a) s.

(** [s.endsWith(p)] *)
Definition endsWith (p s : string) : bool :=
  (String.length p <=? String.length s)%nat &&
  String.eqb (substring1 (String.length s - String.length p) s) p.

(** [l.join(sep)] *)
Definition join (sep : string) (l : list string) : string := String.concat sep l.

(** Exceptions: the two classes the plugin and its libraries raise. *)
Inductive exn : Type :=
| TypeError (msg : string)
| Error (msg : string).

Definition result (A : Type) : Type := (exn + A)%type.
Definition ok {A : Type} (a : A) : result A := inr a.
Definition throw {A : Type} (e : exn) : result A := inl e.
Definition bind {A B : Type} (m : result A) (k : A -> result B) : result B :=
  match m with
  | inl e => inl e
  | inr a => k a
  end.

(** The values an option of the plugin can hold.  Numbers are restricted to
    integers; functions and objects are opaque. *)
Inductive value : Type :=
| VUndefined
| VNull
| VBool (b : bool)
| VNumber (n : Z)
| VString (s : string)
| VFunction
| VObject.

(** [v != null] *)
Definition notNullish (v : value) : bool :=
  match v with
  | VUndefined | VNull => false
  | _ => true
  end.

(** Truthiness, as tested by [v ? a : b]. *)
Definition truthy (v : value) : bool :=
  match v with
  | VUndefined | VNull => false
  | VBool b => b
  | VNumber n => negb (n =? 0)%Z
  | VString s => negb (String.eqb s EmptyString)
  | VFunction | VObject => true
  end.

(** [v === s] for a string [s] *)
Definition strictEqString (v : value) (s : string) : bool :=
  match v with
  | VString t => String.eqb t s
  | _ => false
  end.

(** [typeof v === 'function'] *)
Definition isFunction (v : value) : bool :=
  match v with
  | VFunction => true
  | _ => false
  end.

End JS.

Import JS.

Notation "x <- m ;; k" := (JS.bind m (fun x => k))
  (at level 61, m at next level, right associativity).

(** ** Constants of the module *)

Definition VIRTUAL_ID_IMPORT : string := "preloaddeps:import".
Definition MARKER : string := quoted "__IMPORT_DEPS__".

(** ** Options and plugin set-up *)

Definition canonicalize (path : string) : string :=
  let path := if startsWith "/" path then substring1 1 path else path in
  let path := if endsWith "/" path
              then substring2 0 (String.length path - 1) path else path in
  path.

(** The properties of the options object that [hoistImportDeps] reads.  A
    property the caller did not set is [VUndefined].  [anononymousCrossOrigin]
    is the property the source reads at line 22. *)
Record Options : Type := mkOptions {
  method : value;
  setAnonymousCrossOrigin : value;
  anononymousCrossOrigin : value;
  baseUrl : value;
  customPreload : value
}.

(** [{}] *)
Definition emptyOptions : Options :=
  mkOptions VUndefined VUndefined VUndefined VUndefined VUndefined.

Definition customError : exn :=
  Error "hoistImportDeps: options.method was set to 'custom' but options.customPreload is not a function".

(** [hoistImportDeps(options)], up to the [return], for an argument that is
    absent or an object whose properties can be written: the options as the
    hooks see them, or the exception of line 25.  The record returned is the
    object of the caller after the assignments of lines 20 to 23.  The hooks
    below take the resolved options as their first argument. *)
Definition hoistImportDeps (options : option Options) : result Options :=
  let options := match options with Some o => o | None => emptyOptions end in
  let method' :=
    if notNullish (method options) then method options else VString "preload" in
  let cross' :=
    if notNullish (setAnonymousCrossOrigin options)
    then anononymousCrossOrigin options else VBool true in
  let baseUrl' :=
    match baseUrl options with
    | VString s => VString (canonicalize s)
    | _ => VNull
    end in
  if strictEqString method' "custom" && negb (isFunction (customPreload options))
  then throw customError
  else ok (mkOptions method' cross' (anononymousCrossOrigin options) baseUrl'
                     (customPreload options)).

(** ** The bundle *)

Record OutputChunk : Type := mkChunk {
  fileName : string;
  code : string;
  imports : list string;
  dynamicImports : list string
}.

(** An entry of the bundle: [type === 'chunk'] or an asset. *)
Inductive output : Type :=
| Chunk (c : OutputChunk)
| Asset (name : string).

(** The bundle object: its keys in the order of [Object.keys], without
    repetition. *)
Definition OutputBundle : Type := list (string * output).

Fixpoint lookup (name : string) (b : OutputBundle) : option output :=
  match b with
  | [] => None
  | (k, v) :: r => if String.eqb k name then Some v else lookup name r
  end.

(** ** getDeps *)

Section GetDeps.

Variable options : Options.

(** [getDeps(chunkName, bundle)] for a string [chunkName].  An asset has no
    [imports]: reading their length raises. *)
Definition getDeps (chunkName : string) (bundle : OutputBundle) : result string :=
  let name := if startsWith "./" chunkName then substring1 2 chunkName else chunkName in
  let amd := negb (endsWith ".js" name) in
  let name := if amd then name ++ ".js" else name in
  match lookup name bundle with
  | Some (Chunk chunk) =>
      if (0 <? List.length (imports chunk))%nat
      then ok (join ","
                 (map (fun s =>
                         quoted ("./" ++
                                 (if amd && strictEqString (method options) "import"
                                  then substring2 0 (String.length s - 3) s else s)))
                      (imports chunk)))
      else ok EmptyString
  | Some (Asset _) =>
      throw (TypeError "Cannot read properties of undefined (reading 'length')")
  | None => ok EmptyString
  end.

End GetDeps.

(** ** The virtual loader module *)

Definition newline : string := String "010"%char EmptyString.

(** The text of the template of [load], line by line, before and after the
    two lines that hold an interpolated expression. *)
Definition templateHead : list string :=
    [ "const seen = new Set();";
      "const requestIdleCallback = (typeof window !== 'undefined' && window.requestIdleCallback) ||";
      "  function (cb) {";
      "    const start = Date.now();";
      "    return setTimeout(function () {";
      "      cb({";
      "        didTimeout: false,";
      "        timeRemaining: function () {";
      "          return Math.max(0, 50 - (Date.now() - start));";
      "      },";
      "    });";
      "  }, 1);";
      "};";
      "function preloadOrPrefetch(dep, method) {";
      "  if (seen.has(dep)) {";
      "    return Promise.resolve({});";
      "  };";
      "  seen.add(dep);";
      "  return new Promise((res, rej) => {";
      "    const el = document.createElement('link');";
      "    const hasSupport = el.relList && el.relList.supports && el.relList.supports(method);";
      "    if (hasSupport) {" ].

Definition templateTail : list string :=
    [ "      document.head.appendChild(el);";
      "    } else {";
      "      let fetchFn;";
      "      if (window.fetch != null) {";
      "        fetchFn = () => fetch(dep, {credentials: 'same-origin'}).then(() => { return {}; });";
      "      } else {";
      "        fetchFn = () => new Promise((ires, irej) => {";
      "          const req = new XMLHttpRequest();";
      "          req.open('GET', dep, req.withCredentials=true);";
      "          req.onload = () => {";
      "            (req.status === 200) ? ires({}) : irej();";
      "          };";
      "          req.send();    ";
      "        });";
      "      }";
      "      if (method === 'preload') {";
      "        fetchFn().then(res).catch(rej);";
      "      } else {";
      "        requestIdleCallback(() => fetchFn().then(res).catch(rej), {timeout: 2000});";
      "      }";
      "    }";
      "  });";
      "}";
      "export function __loadDeps(baseImport, ...deps) {";
      "  const method = (typeof window !== 'undefined' && !!window['HOIST_PREFETCH']) ? 'prefetch' : 'preload';";
      "  if (typeof document !== 'undefined' && document.createElement != null && document.head != null) {";
      "    for (let dep of deps) {";
      "      if (!dep.endsWith('.js')) dep += '.js';";
      "      preloadOrPrefetch(dep, method);";
      "    }";
      "  }";
      "  return (method === 'preload') ? import(baseImport) : preloadOrPrefetch(baseImport, method);";
      "}" ].

(** The template with the texts of its two interpolated expressions. *)
Definition template (baseUrlStatement crossOriginAttribute : string) : string :=
  join newline templateHead ++ newline ++
  "      " ++ baseUrlStatement ++ ";" ++ newline ++
  "      Object.assign(el, { href: dep, rel: method, as: 'script', " ++ crossOriginAttribute ++
  " onload: () => { el.remove(); res({}); }, onerror: () => { el.remove(); rej(); }});" ++ newline ++
  join newline templateTail.

Section Load.

Variable options : Options.

(** The text of the value of an option inside a template literal. *)
Definition valueToString (v : value) : string :=
  match v with
  | VUndefined => "undefined"
  | VNull => "null"
  | VBool true => "true"
  | VBool false => "false"
  | VNumber n => NilZero.string_of_int (Z.to_int n)
  | VString s => s
  | VFunction => "function () { [native code] }"
  | VObject => "[object Object]"
  end.

(** Line 94: the statement that rewrites [dep] when [options.baseUrl != null]. *)
Definition baseUrlStatement : string :=
  if notNullish (baseUrl options)
  then "dep = '/" ++ valueToString (baseUrl options) ++ "/' + dep.substring(2);"
  else EmptyString.

(** Lines 95-97: the attribute emitted when [options.setAnonymousCrossOrigin]
    is truthy. *)
Definition crossOriginAttribute : string :=
  if truthy (setAnonymousCrossOrigin options)
  then "crossOrigin: 'anonymous',"
  else EmptyString.

Definition loaderTemplate : string :=
  template baseUrlStatement crossOriginAttribute.

(** [resolveId(id)] *)
Definition resolveId (id : string) : option string :=
  if String.eqb id VIRTUAL_ID_IMPORT then Some id else None.

(** [load(id)] *)
Definition load (id : string) : option string :=
  if String.eqb id VIRTUAL_ID_IMPORT then Some loaderTemplate else None.

End Load.

(** ** magic-string

    A [MagicString] is the original text cut into chunks.  A chunk covers the
    characters from [start] to [end_]; it prints as its [intro], its [content]
    and its [outro].  Inserting at an index cuts the chunk that contains the
    index and adds to the [outro] of the chunk on the left or to the [intro]
    of the chunk on the right; overwriting a range cuts at both ends and
    replaces the content of the chunks in between. *)

Module MagicString.

Record Chunk : Type := mkChunk {
  start : nat;
  end_ : nat;
  original : string;
  intro : string;
  content : string;
  outro : string;
  edited : bool
}.

Record t : Type := mk {
  source : string;
  head : string;
  tail : string;
  chunks : list Chunk
}.

(** [new MagicString(code)] *)
Definition new (code : string) : t :=
  mk code EmptyString EmptyString
     [mkChunk 0 (String.length code) code EmptyString code EmptyString false].

Definition startsAt (i : nat) (c : Chunk) : bool := Nat.eqb (start c) i.
Definition endsAt (i : nat) (c : Chunk) : bool := Nat.eqb (end_ c) i.

(** [this.byStart[i]] and [this.byEnd[i]] *)
Definition byStart (ms : t) (i : nat) : option Chunk := find (startsAt i) (chunks ms).
Definition byEnd (ms : t) (i : nat) : option Chunk := find (endsAt i) (chunks ms).

(** [chunk.edit(content)]: intro and outro are dropped. *)
Definition edit (text : string) (c : Chunk) : Chunk :=
  mkChunk (start c) (end_ c) (original c) EmptyString text EmptyString true.

(** [chunk.split(index)]: the two halves of a chunk. *)
Definition splitChunk (c : Chunk) (index : nat) : Chunk * Chunk :=
  let sliceIndex := index - start c in
  let originalBefore := substring2 0 sliceIndex (original c) in
  let originalAfter := substring1 sliceIndex (original c) in
  (mkChunk (start c) index originalBefore (intro c)
           (if edited c then EmptyString else originalBefore) EmptyString (edited c),
   mkChunk index (end_ c) originalAfter EmptyString
           (if edited c then EmptyString else originalAfter)
           (if edited c then EmptyString else outro c) (edited c)).

(** The chunk that contains [index] strictly inside is cut in two; an edited
    chunk with text cannot be cut. *)
Fixpoint splitChunks (cs : list Chunk) (index : nat) : result (list Chunk) :=
  match cs with
  | [] => ok []
  | c :: r =>
      if Nat.ltb (start c) index && Nat.ltb index (end_ c) then
        if edited c && negb (String.eqb (content c) EmptyString)
        then throw (Error "Cannot split a chunk that has already been edited")
        else let (a, b) := splitChunk c index in ok (a :: b :: r)
      else r' <- splitChunks r index ;; ok (c :: r')
  end.

(** [this._split(index)] *)
Definition split (ms : t) (index : nat) : result t :=
  match byStart ms index, byEnd ms index with
  | None, None =>
      cs <- splitChunks (chunks ms) index ;;
      ok (mk (source ms) (head ms) (tail ms) cs)
  | _, _ => ok ms
  end.

(** The first chunk that satisfies [p] is replaced by its image under [f]. *)
Fixpoint updateFirst (p : Chunk -> bool) (f : Chunk -> Chunk) (cs : list Chunk)
  : list Chunk :=
  match cs with
  | [] => []
  | c :: r => if p c then f c :: r else c :: updateFirst p f r
  end.

Definition prependOutro (text : string) (c : Chunk) : Chunk :=
  mkChunk (start c) (end_ c) (original c) (intro c) (content c) (text ++ outro c)
          (edited c).

Definition appendIntro (text : string) (c : Chunk) : Chunk :=
  mkChunk (start c) (end_ c) (original c) (intro c ++ text) (content c) (outro c)
          (edited c).

(** [prependLeft(index, text)] *)
Definition prependLeft (ms : t) (index : nat) (text : string) : result t :=
  ms <- split ms index ;;
  match byEnd ms index with
  | Some _ =>
      ok (mk (source ms) (head ms) (tail ms)
             (updateFirst (endsAt index) (prependOutro text) (chunks ms)))
  | None => ok (mk (source ms) (text ++ head ms) (tail ms) (chunks ms))
  end.

(** [appendRight(index, text)] *)
Definition appendRight (ms : t) (index : nat) (text : string) : result t :=
  ms <- split ms index ;;
  match byStart ms index with
  | Some _ =>
      ok (mk (source ms) (head ms) (tail ms)
             (updateFirst (startsAt index) (appendIntro text) (chunks ms)))
  | None => ok (mk (source ms) (head ms) (tail ms ++ text) (chunks ms))
  end.

(** [prepend(text)] *)
Definition prepend (ms : t) (text : string) : t :=
  mk (source ms) (text ++ head ms) (tail ms) (chunks ms).

(** The chunks after the first one of an overwritten range, up to the chunk
    that ends at [e], are emptied.  Running off the list is the [null]
    dereference of the library's loop. *)
Fixpoint editThrough (cs : list Chunk) (e : nat) : result (list Chunk) :=
  match cs with
  | [] => throw (TypeError "Cannot read properties of null (reading 'edit')")
  | c :: r =>
      if endsAt e c then ok (edit EmptyString c :: r)
      else r' <- editThrough r e ;; ok (edit EmptyString c :: r')
  end.

Fixpoint overwriteChunks (cs : list Chunk) (s e : nat) (text : string)
  : result (list Chunk) :=
  match cs with
  | [] => ok []
  | c :: r =>
      if startsAt s c then
        if endsAt e c then ok (edit text c :: r)
        else r' <- editThrough r e ;; ok (edit text c :: r')
      else r' <- overwriteChunks r s e text ;; ok (c :: r')
  end.

(** The chunks up to and including the first one that ends at [e]. *)
Fixpoint upTo (e : nat) (cs : list Chunk) : list Chunk :=
  match cs with
  | [] => []
  | c :: r => if endsAt e c then [c] else c :: upTo e r
  end.

(** [overwrite(s, e, text)] *)
Definition overwrite (ms : t) (s e : nat) (text : string) : result t :=
  if Nat.ltb (String.length (source ms)) e then throw (Error "end is out of bounds")
  else if Nat.eqb s e then throw (Error "Cannot overwrite a zero-length range")
  else
    ms <- split ms s ;;
    ms <- split ms e ;;
    match byStart ms s with
    | Some _ =>
        cs <- overwriteChunks (chunks ms) s e text ;;
        ok (mk (source ms) (head ms) (tail ms) cs)
    | None =>
        match byEnd ms e with
        | Some _ =>
            ok (mk (source ms) (head ms) (tail ms)
                   (upTo e (chunks ms) ++ [edit text (mkChunk s e EmptyString EmptyString EmptyString EmptyString false)]))
        | None => throw (TypeError "Cannot set properties of undefined (setting 'next')")
        end
    end.

Definition chunkToString (c : Chunk) : string := intro c ++ content c ++ outro c.

(** [toString()] *)
Definition chunksToString (cs : list Chunk) : string :=
  fold_right (fun c str => chunkToString c ++ str) EmptyString cs.

Definition toString (ms : t) : string :=
  head ms ++ chunksToString (chunks ms) ++ tail ms.

End MagicString.

(** ** The syntax tree *)

Module Estree.

(** The [value] of a literal.  [LNumber] stands for numeric and bigint
    literals, restricted to integers. *)
Inductive litval : Type :=
| LNull
| LBool (b : bool)
| LNumber (n : Z)
| LString (s : string)
| LRegExp (pattern flags : string).

(** The nodes the plugin tells apart.  [CallExpression] stands for the two
    kinds of node that have [arguments] (calls and [new]); [Other] is any
    other node, with its child nodes in the order of its properties. *)
#[warnings="-register-all"] Inductive node : Type :=
| Literal (start end_ : nat) (raw : string) (value : litval)
| ImportExpression (start end_ : nat) (source : option node)
| CallExpression (start end_ : nat) (callee : node) (arguments : list node)
| Other (type : string) (start end_ : nat) (children : list node).

Definition start (n : node) : nat :=
  match n with
  | Literal s _ _ _ | ImportExpression s _ _ | CallExpression s _ _ _ | Other _ s _ _ => s
  end.

Definition end_ (n : node) : nat :=
  match n with
  | Literal _ e _ _ | ImportExpression _ e _ | CallExpression _ e _ _ | Other _ _ e _ => e
  end.

Definition truthy (v : litval) : bool :=
  match v with
  | LNull => false
  | LBool b => b
  | LNumber n => negb (n =? 0)%Z
  | LString s => negb (String.eqb s EmptyString)
  | LRegExp _ _ => true
  end.

(** The text of a literal value inside a template literal. *)
Definition toString (v : litval) : string :=
  match v with
  | LNull => "null"
  | LBool true => "true"
  | LBool false => "false"
  | LNumber n => NilZero.string_of_int (Z.to_int n)
  | LString s => s
  | LRegExp pattern flags => "/" ++ pattern ++ "/" ++ flags
  end.

(** The visits of [walk]: every node with its parent, depth first, a node
    before its children. *)
Fixpoint preorder (parent : option node) (n : node) {struct n}
  : list (node * option node) :=
  (n, parent) ::
  match n with
  | Literal _ _ _ _ => []
  | ImportExpression _ _ None => []
  | ImportExpression _ _ (Some s) => preorder (Some n) s
  | CallExpression _ _ callee args =>
      (preorder (Some n) callee ++ flat_map (preorder (Some n)) args)%list
  | Other _ _ _ children => flat_map (preorder (Some n)) children
  end.

(** [walk(ast, { enter })] with the state the callback updates; an exception
    of the callback ends the walk. *)
Definition walk {S : Type} (enter : node -> option node -> S -> result S)
           (ast : node) (st : S) : result S :=
  fold_left (fun acc v => st <- acc ;; enter (fst v) (snd v) st)
            (preorder None ast) (ok st).

End Estree.

Import Estree.

(** ** The hooks *)

(** A diagnostic passed to [this.warn]. *)
Record warning : Type := mkWarning {
  warningCode : string;
  message : string
}.

(** The warning of the two [catch] blocks, for the unit or chunk [id] and the
    text [err] of the parser's exception. *)
Definition parseWarning (id err : string) : warning :=
  mkWarning "PARSE_ERROR"
            ("rollup-plugin-hoist-import-deps: failed to parse " ++ id ++ "." ++
             newline ++ err).

(** *** The pre-filter of [transform]: the regular expression
    [import], white space, an opening bracket, one or more characters other
    than a closing bracket, a closing bracket. *)

(** The class [\s], for code units below 256. *)
Definition isSpace (c : ascii) : bool :=
  let n := nat_of_ascii c in
  (Nat.leb 9 n && Nat.leb n 13) || Nat.eqb n 32 || Nat.eqb n 160.

Fixpoint skipSpaces (s : string) : string :=
  match s with
  | String c r => if isSpace c then skipSpaces r else s
  | EmptyString => s
  end.

Fixpoint containsChar (c : ascii) (s : string) : bool :=
  match s with
  | String d r => Ascii.eqb d c || containsChar c r
  | EmptyString => false
  end.

(** The expression matches at the front of [s]. *)
Definition matchesHere (s : string) : bool :=
  if String.prefix "import" s then
    match skipSpaces (substring1 6 s) with
    | String "("%char (String c r) => negb (Ascii.eqb c ")"%char) && containsChar ")"%char r
    | _ => false
    end
  else false.

(** [code.match(firstpass)] is not [null]. *)
Fixpoint firstpass (code : string) : bool :=
  matchesHere code ||
  match code with
  | String _ r => firstpass r
  | EmptyString => false
  end.

Definition wrapperOpen : string := "__loadDeps(".
Definition wrapperClose : string := ", " ++ MARKER ++ ")".
Definition loaderImport : string :=
  "import {__loadDeps} from '" ++ VIRTUAL_ID_IMPORT ++ "';" ++ newline.

Section Hooks.

(** [this.parse]: the tree, or the text of the exception. *)
Variable parse : string -> string + node.

Variable options : Options.

(** The callback of the walk of [transform]; the state is the edited text and
    [hasDynamicImport]. *)
Definition enterTransform (n : node) (_ : option node) (st : MagicString.t * bool)
  : result (MagicString.t * bool) :=
  match n with
  | ImportExpression s e _ =>
      ms <- MagicString.prependLeft (fst st) s wrapperOpen ;;
      ms <- MagicString.appendRight ms e wrapperClose ;;
      ok (ms, true)
  | _ => ok st
  end.

(** [transform(code, id)]: [None] is [null], the unit is left as it is; the
    source map of the result is not modelled. *)
Definition transform (code id : string) : result (option string * list warning) :=
  if String.eqb id VIRTUAL_ID_IMPORT then ok (None, [])
  else if negb (firstpass code) then ok (None, [])
  else
    match parse code with
    | inl err => ok (None, [parseWarning id err])
    | inr ast =>
        st <- walk enterTransform ast (MagicString.new code, false) ;;
        if negb (snd st) then ok (None, [])
        else ok (Some (MagicString.toString (MagicString.prepend (fst st) loaderImport)), [])
    end.

(** The callback of the inner walk of [generateBundle]: every literal
    assigns [importChunkName]. *)
Definition enterWrapped (n : node) (_ : option node) (importChunkName : option litval)
  : result (option litval) :=
  match n with
  | Literal _ _ _ v => ok (Some v)
  | _ => ok importChunkName
  end.

(** The name of the chunk that [importExpr] loads: [None] is [null] or
    [undefined]. *)
Definition importChunkNameOf (importExpr : node) : result (option litval) :=
  match importExpr with
  | ImportExpression _ _ src =>
      ok (match src with
          | Some (Literal _ _ _ v) => Some v
          | _ => None
          end)
  | _ => walk enterWrapped importExpr None
  end.

(** The callback of the outer walk of [generateBundle]. *)
Definition enterBundle (bundle : OutputBundle) (n : node) (parent : option node)
           (magicString : MagicString.t) : result MagicString.t :=
  match n with
  | Literal _ _ raw _ =>
      if String.eqb raw MARKER then
        match parent with
        | Some (CallExpression _ _ _ args) =>
            match args with
            | [] => ok magicString
            | importExpr :: _ =>
                importChunkName <- importChunkNameOf importExpr ;;
                match importChunkName with
                | Some v =>
                    if truthy v then
                      ms <- MagicString.overwrite magicString (start importExpr)
                              (end_ importExpr) (quoted (toString v)) ;;
                      deps <- match v with
                              | LString name => getDeps options name bundle
                              | _ => throw (TypeError "chunkName.startsWith is not a function")
                              end ;;
                      MagicString.overwrite ms (start n) (end_ n) deps
                    else ok magicString
                | None => ok magicString
                end
            end
        | _ => throw (TypeError "Cannot read properties of undefined (reading '0')")
        end
      else ok magicString
  | _ => ok magicString
  end.

(** [chunk.code = text] for the entry [name] of the bundle. *)
Fixpoint setCode (name text : string) (b : OutputBundle) : OutputBundle :=
  match b with
  | [] => []
  | (k, v) :: r =>
      if String.eqb k name then
        (k, match v with
            | Chunk c => Chunk (mkChunk (fileName c) text (imports c) (dynamicImports c))
            | Asset a => Asset a
            end) :: r
      else (k, v) :: setCode name text r
  end.

(** One turn of the loop of [generateBundle]; the state is the bundle and
    the warnings so far. *)
Definition generateBundleStep (st : OutputBundle * list warning) (chunkName : string)
  : result (OutputBundle * list warning) :=
  let (bundle, warnings) := st in
  match lookup chunkName bundle with
  | None => throw (TypeError "Cannot read properties of undefined (reading 'type')")
  | Some (Asset _) => ok st
  | Some (Chunk chunk) =>
      if Nat.eqb (List.length (dynamicImports chunk)) 0 then ok st
      else
        match parse (code chunk) with
        | inl err => ok (bundle, (warnings ++ [parseWarning (fileName chunk) err])%list)
        | inr ast =>
            magicString <- walk (enterBundle bundle) ast (MagicString.new (code chunk)) ;;
            ok (setCode chunkName (MagicString.toString magicString) bundle, warnings)
        end
  end.

Fixpoint generateBundleLoop (keys : list string) (st : OutputBundle * list warning)
  : result (OutputBundle * list warning) :=
  match keys with
  | [] => ok st
  | k :: r => st <- generateBundleStep st k ;; generateBundleLoop r st
  end.

(** [generateBundle(_, bundle)]: the bundle after the pass and the warnings,
    or the exception that ends the build. *)
Definition generateBundle (bundle : OutputBundle) : result (OutputBundle * list warning) :=
  generateBundleLoop (map fst bundle) (bundle, []).

End Hooks.

(** ** Vocabulary of the properties *)

Definition isImportExpression (n : node) : bool :=
  match n with
  | ImportExpression _ _ _ => true
  | _ => false
  end.

(** A literal whose text is the marker. *)
Definition isMarker (n : node) : bool :=
  match n with
  | Literal _ _ raw _ => String.eqb raw MARKER
  | _ => false
  end.

(** The dynamic imports of a tree, in the order of the walk. *)
Definition importExpressions (ast : node) : list node :=
  filter isImportExpression (map fst (preorder None ast)).

(** The marker literals of a tree with their parents, in the order of the walk. *)
Definition markerVisits (ast : node) : list (node * option node) :=
  filter (fun v => isMarker (fst v)) (preorder None ast).

(** The values of the literals of a tree, in the order of the walk. *)
Definition literalValues (n : node) : list litval :=
  flat_map (fun v => match fst v with
                     | Literal _ _ _ value => [value]
                     | _ => []
                     end)
           (preorder None n).

(** The specification's reading of the search in a wrapped import: the first
    literal met. *)
Definition firstLiteralValue (n : node) : option litval := List.hd_error (literalValues n).

(** The specification's reading of the dependency list: the imports of the
    graph as string literals, as they are. *)
Definition verbatimLiterals (imports : list string) : string :=
  join "," (map quoted imports).

(** The text from [a] to [b]. *)
Definition slice (a b : nat) (s : string) : string := substring2 a b s.

(** [s] repeated [k] times. *)
Fixpoint times (k : nat) (s : string) : string :=
  match k with
  | 0 => EmptyString
  | S k => s ++ times k s
  end.

(** The text [s], whose first character has the offset [i], with the text
    [L j] and then the text [R j] inserted in front of the offset [j], for
    every offset up to the end of [s]. *)
Fixpoint weave (L R : nat -> string) (i : nat) (s : string) : string :=
  L i ++ R i ++
  match s with
  | EmptyString => EmptyString
  | String c r => String c (weave L R (S i) r)
  end.

Definition upd (f : nat -> string) (i : nat) (v : string) : nat -> string :=
  fun j => if Nat.eqb j i then v else f j.

(** The number of the nodes that start, or end, at the offset [j]. *)
Definition startingAt (j : nat) (nodes : list node) : nat :=
  List.length (filter (fun n => Nat.eqb (start n) j) nodes).
Definition endingAt (j : nat) (nodes : list node) : nat :=
  List.length (filter (fun n => Nat.eqb (end_ n) j) nodes).

(** The specification's reading of [transform]: the text of the unit with
    the opening of a wrapper in front of every dynamic import and the marker
    and the closing bracket behind it. *)
Definition wrapImports (imports : list node) (code : string) : string :=
  weave (fun j => times (startingAt j imports) wrapperOpen)
        (fun j => times (endingAt j imports) wrapperClose) 0 code.

(** The offsets of a node lie in the text. *)
Definition inText (code : string) (n : node) : bool :=
  Nat.leb (start n) (String.length code) && Nat.leb (end_ n) (String.length code).

(** The chunks [cs] are the text [s] at the offset [a], not edited, with the
    insertions [L] and [R]: a chunk that starts at [j] has the intro [R j], a
    chunk that ends at [j] has the outro [L j], and nothing is inserted
    inside a chunk. *)
Inductive Rep (L R : nat -> string) : nat -> string -> list MagicString.Chunk -> Prop :=
| Rep_nil (a : nat) : Rep L R a EmptyString []
| Rep_cons (a : nat) (t s : string) (cs : list MagicString.Chunk) :
    t <> EmptyString ->
    (forall i, a < i < a + String.length t -> L i = EmptyString /\ R i = EmptyString) ->
    Rep L R (a + String.length t) s cs ->
    Rep L R a (t ++ s)
        (MagicString.mkChunk a (a + String.length t) t (R a) t
                             (L (a + String.length t)) false :: cs).

(** The edited text [ms] is the text [code] with the insertions [L] and [R]. *)
Definition Inv (code : string) (L R : nat -> string) (ms : MagicString.t) : Prop :=
  MagicString.head ms = L 0 /\
  MagicString.tail ms = R (String.length code) /\
  Rep L R 0 code (MagicString.chunks ms).

(** A chunk of magic-string that has not been touched, a chunk whose text has
    been overwritten, and the chunk of a piece of text that may be empty. *)
Definition pristine (a b : nat) (r : string) : MagicString.Chunk :=
  MagicString.mkChunk a b r EmptyString r EmptyString false.
Definition overwritten (a b : nat) (r x : string) : MagicString.Chunk :=
  MagicString.mkChunk a b r EmptyString x EmptyString true.
Definition optional (a b : nat) (r : string) : list MagicString.Chunk :=
  if Nat.ltb a b then [pristine a b r] else [].

(** The name under which [getDeps] looks a chunk up: without a leading [./],
    and with the extension [.js] when the name has none. *)
Definition relativeName (name : string) : string :=
  if startsWith "./" name then substring1 2 name else name.
Definition chunkFile (name : string) : string :=
  if endsWith ".js" (relativeName name) then relativeName name
  else relativeName name ++ ".js".

(** The graph has no chunk for the name, or a chunk without static imports. *)
Definition noImports (b : OutputBundle) (name : string) : bool :=
  match lookup (chunkFile name) b with
  | None => true
  | Some (Chunk t) => Nat.eqb (List.length (imports t)) 0
  | Some (Asset _) => false
  end.

(** ** Sample inputs *)

(** Options: [{ setAnonymousCrossOrigin: true }], none, [{ method: 'import' }]. *)
Definition crossOriginTrue : Options :=
  mkOptions VUndefined (VBool true) VUndefined VUndefined VUndefined.

(** The options the hooks see when the plugin is set up with [o]. *)
Definition resolved (o : option Options) : Options :=
  match hoistImportDeps o with
  | inr r => r
  | inl _ => emptyOptions
  end.

Definition defaultOptions : Options := resolved None.
Definition importOptions : Options :=
  resolved (Some (mkOptions (VString "import") VUndefined VUndefined VUndefined VUndefined)).

(** A chunk [t.js] that imports [a.js] and [b.js], and one that imports nothing. *)
Definition targetChunk : OutputChunk :=
  mkChunk "t.js" "export default 1;" ["a.js"; "b.js"] [].
Definition bareChunk : OutputChunk :=
  mkChunk "t.js" "export default 1;" [] [].
Definition graph : OutputBundle := [("t.js", Chunk targetChunk)].

(** A unit without dynamic import. *)
Definition unitCode : string := "export const x = 1;".
Definition unitAst : node :=
  Other "Program" 0 19
    [Other "ExportNamedDeclaration" 0 19
       [Other "VariableDeclaration" 7 19
          [Other "VariableDeclarator" 13 18
             [Other "Identifier" 13 14 []; Literal 17 18 "1" (LNumber 1)]]]].

(** A unit with two dynamic imports. *)
Definition twoImportsCode : string := "import('./a.js'); import('./b.js');".
Definition twoImportsAst : node :=
  Other "Program" 0 35
    [Other "ExpressionStatement" 0 17
       [ImportExpression 0 16 (Some (Literal 7 15 "'./a.js'" (LString "./a.js")))];
     Other "ExpressionStatement" 18 35
       [ImportExpression 18 34 (Some (Literal 25 33 "'./b.js'" (LString "./b.js")))]].

(** A unit whose dynamic import has a comment between the keyword and the
    bracket. *)
Definition commentedImportCode : string := "import/**/('./x.js');".
Definition commentedImportAst : node :=
  Other "Program" 0 21
    [Other "ExpressionStatement" 0 21
       [ImportExpression 0 20 (Some (Literal 11 19 "'./x.js'" (LString "./x.js")))]].

(** A text that matches the pre-filter and is not a program. *)
Definition brokenCode : string := "import(a) +".

(** A chunk of an ES module output with one wrapped dynamic import of [t.js]. *)
Definition siteCode : string := "__loadDeps(import('./t.js'), " ++ MARKER ++ ");".
Definition siteAst : node :=
  Other "Program" 0 48
    [Other "ExpressionStatement" 0 48
       [CallExpression 0 47 (Other "Identifier" 0 10 [])
          [ImportExpression 11 27 (Some (Literal 18 26 "'./t.js'" (LString "./t.js")));
           Literal 29 46 MARKER (LString "__IMPORT_DEPS__")]]].
Definition siteChunk : OutputChunk := mkChunk "main.js" siteCode [] ["t.js"].
Definition siteBundle : OutputBundle :=
  [("main.js", Chunk siteChunk); ("t.js", Chunk targetChunk)].
Definition bareBundle : OutputBundle :=
  [("main.js", Chunk siteChunk); ("t.js", Chunk bareChunk)].

(** A dynamic import as the CommonJS output wraps it, for the source
    [import(dirs['en'] + '/x.js')]: the text
    [Promise.resolve().then(function () { return require(dirs['en'] + '/x.js'); })]
    at the offset 11 of [wrappedCode]. *)
Definition wrappedImport : node :=
  CallExpression 11 88
    (Other "MemberExpression" 11 33
       [CallExpression 11 28
          (Other "MemberExpression" 11 26
             [Other "Identifier" 11 18 []; Other "Identifier" 19 26 []])
          [];
        Other "Identifier" 29 33 []])
    [Other "FunctionExpression" 34 87
       [Other "BlockStatement" 46 87
          [Other "ReturnStatement" 48 85
             [CallExpression 55 84
                (Other "Identifier" 55 62 [])
                [Other "BinaryExpression" 63 83
                   [Other "MemberExpression" 63 73
                      [Other "Identifier" 63 67 [];
                       Literal 68 72 "'en'" (LString "en")];
                    Literal 76 83 "'/x.js'" (LString "/x.js")]]]]]].

Definition wrappedCode : string :=
  "__loadDeps(Promise.resolve().then(function () { return require(dirs['en'] + '/x.js'); }), "
  ++ MARKER ++ ");".

Definition wrappedAst : node :=
  Other "Program" 0 109
    [Other "ExpressionStatement" 0 109
       [CallExpression 0 108 (Other "Identifier" 0 10 [])
          [wrappedImport; Literal 90 107 MARKER (LString "__IMPORT_DEPS__")]]].

(** A chunk of a SystemJS output with the wrapped imports of the sources
    [import('./x.js')] and [import(p[1])], one statement per line. *)
Definition systemCode : string :=
  "__loadDeps(module.import('./x.js'), " ++ MARKER ++ ");" ++ newline ++
  "__loadDeps(module.import(p[1]), " ++ MARKER ++ ");".
Definition systemAst : node :=
  Other "Program" 0 107
    [Other "ExpressionStatement" 0 55
       [CallExpression 0 54 (Other "Identifier" 0 10 [])
          [CallExpression 11 34
             (Other "MemberExpression" 11 24
                [Other "Identifier" 11 17 []; Other "Identifier" 18 24 []])
             [Literal 25 33 "'./x.js'" (LString "./x.js")];
           Literal 36 53 MARKER (LString "__IMPORT_DEPS__")]];
     Other "ExpressionStatement" 56 107
       [CallExpression 56 106 (Other "Identifier" 56 66 [])
          [CallExpression 67 86
             (Other "MemberExpression" 67 80
                [Other "Identifier" 67 73 []; Other "Identifier" 74 80 []])
             [Other "MemberExpression" 81 85
                [Other "Identifier" 81 82 []; Literal 83 84 "1" (LNumber 1)]];
           Literal 88 105 MARKER (LString "__IMPORT_DEPS__")]]].
Definition systemChunk : OutputChunk := mkChunk "main.js" systemCode [] ["x.js"].
Definition systemBundle : OutputBundle :=
  [("main.js", Chunk systemChunk);
   ("x.js", Chunk (mkChunk "x.js" "export default 1;" [] []))].

(** A chunk that loads an external module whose name is the text of the
    marker, and the same chunk after one run of [generateBundle]. *)
Definition markerNamedCode : string :=
  "__loadDeps(import('__IMPORT_DEPS__'), " ++ MARKER ++ ");".
Definition markerNamedAst : node :=
  Other "Program" 0 57
    [Other "ExpressionStatement" 0 57
       [CallExpression 0 56 (Other "Identifier" 0 10 [])
          [ImportExpression 11 36
             (Some (Literal 18 35 "'__IMPORT_DEPS__'" (LString "__IMPORT_DEPS__")));
           Literal 38 55 MARKER (LString "__IMPORT_DEPS__")]]].
Definition finalizedCode : string := "__loadDeps(" ++ MARKER ++ ", );".
Definition finalizedAst : node :=
  Other "Program" 0 32
    [Other "ExpressionStatement" 0 32
       [CallExpression 0 31 (Other "Identifier" 0 10 [])
          [Literal 11 28 MARKER (LString "__IMPORT_DEPS__")]]].


(** The chunk [siteChunk] after [generateBundle]. *)
Definition siteDoneCode : string :=
  "__loadDeps(" ++ quoted "./t.js" ++ ", " ++ quoted "./a.js" ++ "," ++ quoted "./b.js" ++ ");".
Definition siteDoneAst : node :=
  Other "Program" 0 40
    [Other "ExpressionStatement" 0 40
       [CallExpression 0 39 (Other "Identifier" 0 10 [])
          [Literal 11 19 (quoted "./t.js") (LString "./t.js");
           Literal 21 29 (quoted "./a.js") (LString "./a.js");
           Literal 30 38 (quoted "./b.js") (LString "./b.js")]]].
Definition siteDoneBundle : OutputBundle :=
  [("main.js", Chunk (mkChunk "main.js" siteDoneCode [] ["t.js"]));
   ("t.js", Chunk targetChunk)].

(** A chunk that cannot be parsed. *)
Definition brokenChunk : OutputChunk := mkChunk "broken.js" brokenCode [] ["t.js"].
Definition brokenBundle : OutputBundle :=
  [("broken.js", Chunk brokenChunk); ("t.js", Chunk targetChunk)].

(** A parser for the sample texts: the trees of the texts above, an exception
    for any other text. *)
Definition sampleParse (text : string) : string + node :=
  if String.eqb text unitCode then inr unitAst
  else if String.eqb text twoImportsCode then inr twoImportsAst
  else if String.eqb text commentedImportCode then inr commentedImportAst
  else if String.eqb text siteCode then inr siteAst
  else if String.eqb text wrappedCode then inr wrappedAst
  else if String.eqb text systemCode then inr systemAst
  else if String.eqb text markerNamedCode then inr markerNamedAst
  else if String.eqb text finalizedCode then inr finalizedAst
  else if String.eqb text siteDoneCode then inr siteDoneAst
  else inl "SyntaxError: Unexpected token".

(** ** Vocabulary of the further properties *)



(** The statement of line 94 for a base URL that has been made canonical. *)
Definition baseUrlRewrite (url : string) : string :=
  "dep = '/" ++ url ++ "/' + dep.substring(2);".

(** Every character of [ws] is white space. *)
Fixpoint allSpaces (ws : string) : bool :=
  match ws with
  | EmptyString => true
  | String c r => isSpace c && allSpaces r
  end.

(** The reading of the regular expression of the pre-filter: somewhere in the
    text stand [import], white space, an opening bracket, a character other
    than a closing bracket and, later, a closing bracket. *)
Definition hasImportCall (text : string) : Prop :=
  exists before ws c inside after,
    text = before ++ "import" ++ ws ++ "(" ++ String c (inside ++ ")" ++ after) /\
    allSpaces ws = true /\ c <> ")"%char.

(** No chunk of the edited text has been overwritten. *)
Definition unedited (cs : list MagicString.Chunk) : bool :=
  forallb (fun c => negb (MagicString.edited c)) cs.

(** Two entries of a bundle that differ at most by their code, and two
    bundles with the same keys and such entries. *)
Definition sameEntry (v v' : output) : Prop :=
  match v, v' with
  | Chunk c, Chunk c' =>
      fileName c = fileName c' /\ imports c = imports c' /\
      dynamicImports c = dynamicImports c'
  | Asset a, Asset a' => a = a'
  | _, _ => False
  end.
Definition sameGraph (b b' : OutputBundle) : Prop :=
  Forall2 (fun x y => fst x = fst y /\ sameEntry (snd x) (snd y)) b b'.

(** A replacement [(start, end, text)] of a range of the code. *)
Definition edit : Type := (nat * nat * string)%type.

(** The replacements that [generateBundle] makes at the visit [v] of a
    marker, in the order in which it makes them: none when no name is
    recovered, else the first argument of the call by the name between double
    quotes and the marker by the dependencies of the name.  [None] when the
    visit raises. *)
Definition siteEdits (o : Options) (b : OutputBundle) (v : node * option node)
  : option (list edit) :=
  match snd v with
  | Some (CallExpression _ _ _ []) => Some []
  | Some (CallExpression _ _ _ (importExpr :: _)) =>
      match importChunkNameOf importExpr with
      | inr None => Some []
      | inr (Some (LString target)) =>
          if String.eqb target EmptyString then Some []
          else
            match getDeps o target b with
            | inr deps =>
                Some [(start importExpr, end_ importExpr, quoted target);
                      (start (fst v), end_ (fst v), deps)]
            | inl _ => None
            end
      | inr (Some name) => if Estree.truthy name then None else Some []
      | inl _ => None
      end
  | _ => None
  end.

Fixpoint editsOf (o : Options) (b : OutputBundle) (vs : list (node * option node))
  : option (list edit) :=
  match vs with
  | [] => Some []
  | v :: r =>
      match siteEdits o b v, editsOf o b r with
      | Some e, Some er => Some (e ++ er)%list
      | _, _ => None
      end
  end.

(** The ranges of [es] are not empty, lie between [p] and [n], and each one
    begins where the one before it ends, or later. *)
Fixpoint ordered (p n : nat) (es : list edit) : bool :=
  match es with
  | [] => true
  | (s, e, _) :: r => Nat.leb p s && Nat.ltb s e && Nat.leb e n && ordered e n r
  end.

(** The text of [code] from the offset [p] on, with the ranges of [es]
    replaced. *)
Fixpoint replaceRanges (p : nat) (es : list edit) (code : string) : string :=
  match es with
  | [] => slice p (String.length code) code
  | (s, e, x) :: r => slice p s code ++ x ++ replaceRanges e r code
  end.

(** The text of [code] from the offset [p] to the offset [q], with the ranges
    of [es] replaced. *)
Fixpoint replaceRangesTo (p : nat) (es : list edit) (q : nat) (code : string) : string :=
  match es with
  | [] => slice p q code
  | (s, e, x) :: r => slice p s code ++ x ++ replaceRangesTo e r q code
  end.

(** The state of the magic string once the code before the offset [p] has
    been edited into [out]: the rest of the code is one untouched chunk. *)
Definition Done (code : string) (p : nat) (out : string) (ms : MagicString.t) : Prop :=
  MagicString.toString ms = out ++ slice p (String.length code) code /\
  (p < String.length code ->
   exists front,
     (forall c, In c front -> MagicString.start c < p /\ MagicString.end_ c <= p) /\
     ms = MagicString.mk code EmptyString EmptyString
            (front ++ [pristine p (String.length code)
                         (slice p (String.length code) code)])%list).

(** The warnings of [generateBundle]: one for each chunk with dynamic
    imports whose code the parser refuses, in the order of the bundle. *)
Definition warningsOf (parse : string -> string + node) (b : OutputBundle) : list warning :=
  flat_map (fun kv =>
              match snd kv with
              | Chunk c =>
                  if Nat.eqb (List.length (dynamicImports c)) 0 then []
                  else match parse (code c) with
                       | inl err => [parseWarning (fileName c) err]
                       | inr _ => []
                       end
              | Asset _ => []
              end) b.

(** A visit of a marker at which [generateBundle] edits nothing: the call
    has no argument, or no name is recovered from its first argument, or the
    name is falsy. *)
Definition inert (v : node * option node) : bool :=
  match snd v with
  | Some (CallExpression _ _ _ []) => true
  | Some (CallExpression _ _ _ (importExpr :: _)) =>
      match importChunkNameOf importExpr with
      | inr None => true
      | inr (Some name) => negb (truthy name)
      | inl _ => false
      end
  | _ => false
  end.

Definition isCall (parent : option node) : bool :=
  match parent with
  | Some (CallExpression _ _ _ _) => true
  | _ => false
  end.

Definition isString (v : litval) : bool :=
  match v with
  | LString _ => true
  | _ => false
  end.

(** ** Further sample inputs *)

(** A unit whose dynamic import has a space in front of the bracket. *)
Definition spacedImportCode : string := "import ('./x.js');".
Definition spacedImportAst : node :=
  Other "Program" 0 18
    [Other "ExpressionStatement" 0 18
       [ImportExpression 0 17 (Some (Literal 8 16 "'./x.js'" (LString "./x.js")))]].

(** A chunk whose dynamic import has a name that is not a literal. *)
Definition namedCode : string := "__loadDeps(import(name), " ++ MARKER ++ ");".
Definition namedAst : node :=
  Other "Program" 0 44
    [Other "ExpressionStatement" 0 44
       [CallExpression 0 43 (Other "Identifier" 0 10 [])
          [ImportExpression 11 23 (Some (Other "Identifier" 18 22 []));
           Literal 25 42 MARKER (LString "__IMPORT_DEPS__")]]].
Definition namedBundle : OutputBundle :=
  [("main.js", Chunk (mkChunk "main.js" namedCode [] ["t.js"]));
   ("t.js", Chunk targetChunk)].

(** A chunk that holds the text of the marker as an ordinary string. *)
Definition strayCode : string := "const m = " ++ MARKER ++ "; import('./t.js');".
Definition strayAst : node :=
  Other "Program" 0 46
    [Other "VariableDeclaration" 0 28
       [Other "VariableDeclarator" 6 27
          [Other "Identifier" 6 7 []; Literal 10 27 MARKER (LString "__IMPORT_DEPS__")]];
     Other "ExpressionStatement" 29 46
       [ImportExpression 29 45 (Some (Literal 36 44 "'./t.js'" (LString "./t.js")))]].
Definition strayBundle : OutputBundle :=
  [("main.js", Chunk (mkChunk "main.js" strayCode [] ["t.js"]));
   ("t.js", Chunk targetChunk)].

(** A chunk of a SystemJS output with the wrapped import of the source
    [import(p[1])]. *)
Definition numberCode : string := "__loadDeps(module.import(p[1]), " ++ MARKER ++ ");".
Definition numberImport : node :=
  CallExpression 11 30
    (Other "MemberExpression" 11 24
       [Other "Identifier" 11 17 []; Other "Identifier" 18 24 []])
    [Other "MemberExpression" 25 29
       [Other "Identifier" 25 26 []; Literal 27 28 "1" (LNumber 1)]].
Definition numberAst : node :=
  Other "Program" 0 51
    [Other "ExpressionStatement" 0 51
       [CallExpression 0 50 (Other "Identifier" 0 10 [])
          [numberImport; Literal 32 49 MARKER (LString "__IMPORT_DEPS__")]]].
Definition numberBundle : OutputBundle :=
  [("main.js", Chunk (mkChunk "main.js" numberCode [] ["x.js"]))].

(** A bundle in which [t.js] is an asset. *)
Definition assetBundle : OutputBundle :=
  [("main.js", Chunk siteChunk); ("t.js", Asset "t.js")].

(** A bundle with the wrapped import of [wrappedCode]. *)
Definition wrappedBundle : OutputBundle :=
  [("main.js", Chunk (mkChunk "main.js" wrappedCode [] ["x.js"]))].

(** A chunk with three calls of the loader: the import of [t.js], an import
    whose source is a variable, and the import of [u.js]. *)
Definition sitesCode : string :=
  siteCode ++ "__loadDeps(import(name), " ++ MARKER ++ ");" ++
  "__loadDeps(import('./u.js'), " ++ MARKER ++ ");".
Definition sitesAst : node :=
  Other "Program" 0 140
    [Other "ExpressionStatement" 0 48
       [CallExpression 0 47 (Other "Identifier" 0 10 [])
          [ImportExpression 11 27 (Some (Literal 18 26 "'./t.js'" (LString "./t.js")));
           Literal 29 46 MARKER (LString "__IMPORT_DEPS__")]];
     Other "ExpressionStatement" 48 92
       [CallExpression 48 91 (Other "Identifier" 48 58 [])
          [ImportExpression 59 71 (Some (Other "Identifier" 66 70 []));
           Literal 73 90 MARKER (LString "__IMPORT_DEPS__")]];
     Other "ExpressionStatement" 92 140
       [CallExpression 92 139 (Other "Identifier" 92 102 [])
          [ImportExpression 103 119 (Some (Literal 110 118 "'./u.js'" (LString "./u.js")));
           Literal 121 138 MARKER (LString "__IMPORT_DEPS__")]]].
Definition sitesBundle : OutputBundle :=
  [("main.js", Chunk (mkChunk "main.js" sitesCode [] ["t.js"; "u.js"]));
   ("t.js", Chunk targetChunk);
   ("u.js", Chunk (mkChunk "u.js" "export default 2;" ["c.js"] []))].

(** A text that no parser accepts and that the pre-filter refuses, and a
    chunk with that code and no dynamic import. *)
Definition silentCode : string := "const = ;".
Definition silentBundle : OutputBundle :=
  [("silent.js", Chunk (mkChunk "silent.js" silentCode [] []))].

(** A parser for the further sample texts. *)
Definition furtherParse (text : string) : string + node :=
  if String.eqb text sitesCode then inr sitesAst
  else if String.eqb text namedCode then inr namedAst
  else if String.eqb text strayCode then inr strayAst
  else if String.eqb text numberCode then inr numberAst
  else sampleParse text.

(** * Properties *)

(** ** Strings *)

Section StringFacts.

Lemma append_nil_r (s : string) : s ++ EmptyString = s.
Proof. induction s as [|c s IH]; simpl; [reflexivity | now rewrite IH]. Qed.

Lemma append_assoc (a b c : string) : (a ++ b) ++ c = a ++ b ++ c.
Proof. induction a as [|x a IH]; simpl; [reflexivity | now rewrite IH]. Qed.

Lemma length_append (a b : string) :
  String.length (a ++ b) = String.length a + String.length b.
Proof. induction a as [|x a IH]; simpl; [reflexivity | now rewrite IH]. Qed.

Lemma substring_0_length (s : string) : String.substring 0 (String.length s) s = s.
Proof. induction s as [|c s IH]; simpl; [reflexivity | now rewrite IH]. Qed.

Lemma substring_0_append (a b : string) :
  String.substring 0 (String.length a) (a ++ b) = a.
Proof.
  induction a as [|x a IH]; simpl.
  - destruct b; reflexivity.
  - now rewrite IH.
Qed.

Lemma substring_skip_append (a b : string) (m : nat) :
  String.substring (String.length a) m (a ++ b) = String.substring 0 m b.
Proof. induction a as [|x a IH]; simpl; [reflexivity | exact IH]. Qed.

Lemma substring_split (k : nat) (s : string) :
  String.substring 0 k s ++ String.substring k (String.length s - k) s = s.
Proof.
  revert k; induction s as [|c s IH]; intros [|k]; simpl; try reflexivity.
  - now rewrite substring_0_length.
  - now rewrite IH.
Qed.

Lemma substring1_append (a b : string) : substring1 (String.length a) (a ++ b) = b.
Proof.
  unfold substring1. rewrite substring_skip_append, length_append.
  replace (String.length a + String.length b - String.length a) with (String.length b) by lia.
  apply substring_0_length.
Qed.

Lemma substring1_length (k : nat) (s : string) :
  k <= String.length s -> String.length (substring1 k s) = String.length s - k.
Proof.
  unfold substring1. revert k; induction s as [|c s IH]; intros [|k] H; simpl in *; try lia.
  - now rewrite substring_0_length.
  - apply IH. lia.
Qed.

(** [startsWith] and [endsWith] say what their names say. *)
Lemma startsWith_iff (p s : string) :
  startsWith p s = true <-> exists r, s = p ++ r.
Proof.
  unfold startsWith. split.
  - intros H. apply prefix_correct in H.
    exists (String.substring (String.length p) (String.length s - String.length p) s).
    rewrite <- H at 1. symmetry. apply substring_split.
  - intros [r ->]. apply prefix_correct. apply substring_0_append.
Qed.

Lemma endsWith_iff (p s : string) :
  endsWith p s = true <-> exists a, s = a ++ p.
Proof.
  unfold endsWith. split.
  - intros H. apply andb_true_iff in H as [Hlen H].
    apply Nat.leb_le in Hlen. apply String.eqb_eq in H.
    exists (String.substring 0 (String.length s - String.length p) s).
    rewrite <- H at 2. unfold substring1. symmetry. apply substring_split.
  - intros [a ->]. rewrite length_append. apply andb_true_iff. split.
    + apply Nat.leb_le. lia.
    + replace (String.length a + String.length p - String.length p)
        with (String.length a) by lia.
      rewrite substring1_append. apply String.eqb_refl.
Qed.

Lemma append_cancel_r (a b c : string) : a ++ c = b ++ c -> a = b.
Proof.
  revert b. induction a as [|x a IH]; intros [|y b] H; cbn [append] in H.
  - reflexivity.
  - apply (f_equal String.length) in H. cbn [String.length] in H.
    rewrite length_append in H. lia.
  - apply (f_equal String.length) in H. cbn [String.length] in H.
    rewrite length_append in H. lia.
  - injection H as -> H. f_equal. now apply IH.
Qed.

End StringFacts.

(** ** Set-up *)



(** C10.  When [setAnonymousCrossOrigin] is given a value other than [null]
    and [undefined], [true] included, the flag the plugin keeps is the value
    of the property [anononymousCrossOrigin].  For options that do not set
    that property the flag is then [undefined], and it is [true] when
    [setAnonymousCrossOrigin] was left unset.  The text of the loader is cut
    in two at the place of the attribute, after [as: 'script', ] and before
    [ onload:]: with [setAnonymousCrossOrigin] left unset the attribute
    [crossOrigin: 'anonymous',] stands between the two parts, else nothing
    does.  The part after it does not hold the word [crossOrigin]; without a
    base URL the part before it does not hold it either, and the whole text
    of the loader does not hold it when [setAnonymousCrossOrigin] was set. *)
Theorem crossOrigin_flag_misspelt_property (o r : Options) :
  anononymousCrossOrigin o = VUndefined ->
  hoistImportDeps (Some o) = ok r ->
  setAnonymousCrossOrigin r =
    (if notNullish (setAnonymousCrossOrigin o) then VUndefined else VBool true) /\
  crossOriginAttribute r =
    (if notNullish (setAnonymousCrossOrigin o) then EmptyString
     else "crossOrigin: 'anonymous',") /\
  load r VIRTUAL_ID_IMPORT =
    Some (template (baseUrlStatement r)
            (if notNullish (setAnonymousCrossOrigin o) then EmptyString
             else "crossOrigin: 'anonymous',")) /\
  (exists before after,
      load r VIRTUAL_ID_IMPORT =
        Some (before ++
              (if notNullish (setAnonymousCrossOrigin o) then EmptyString
               else "crossOrigin: 'anonymous',") ++
              after) /\
      endsWith "Object.assign(el, { href: dep, rel: method, as: 'script', " before = true /\
      startsWith " onload: () => { el.remove(); res({}); }" after = true /\
      String.index 0 "crossOrigin" after = None /\
      (baseUrl r = VNull -> String.index 0 "crossOrigin" before = None)) /\
  (forall text,
      load r VIRTUAL_ID_IMPORT = Some text ->
      baseUrl r = VNull ->
      notNullish (setAnonymousCrossOrigin o) = true ->
      String.index 0 "crossOrigin" text = None).
Proof.
  intros Hun Hr.
  assert (Hattr : crossOriginAttribute r =
          (if notNullish (setAnonymousCrossOrigin o) then EmptyString
           else "crossOrigin: 'anonymous',")).
  { unfold hoistImportDeps in Hr.
    destruct (_ && _) in Hr; [discriminate|]. injection Hr as <-.
    unfold crossOriginAttribute; simpl. rewrite Hun.
    destruct (notNullish (setAnonymousCrossOrigin o)); reflexivity. }
  assert (Hflag : setAnonymousCrossOrigin r =
          (if notNullish (setAnonymousCrossOrigin o) then VUndefined else VBool true)).
  { unfold hoistImportDeps in Hr.
    destruct (_ && _) in Hr; [discriminate|]. injection Hr as <-.
    simpl. now rewrite Hun. }
  assert (Hload : load r VIRTUAL_ID_IMPORT =
          Some (template (baseUrlStatement r)
                  (if notNullish (setAnonymousCrossOrigin o) then EmptyString
                   else "crossOrigin: 'anonymous',"))).
  { unfold load, loaderTemplate. rewrite String.eqb_refl. now rewrite Hattr. }
  split; [exact Hflag|]. split; [exact Hattr|]. split; [exact Hload|]. split.
  - exists (join newline templateHead ++ newline ++
            "      " ++ baseUrlStatement r ++ ";" ++ newline ++
            "      Object.assign(el, { href: dep, rel: method, as: 'script', "),
           (" onload: () => { el.remove(); res({}); }, onerror: () => { el.remove(); rej(); }});" ++
            newline ++ join newline templateTail).
    split; [|split; [|split; [|split]]].
    + rewrite Hload. unfold template. now rewrite !append_assoc.
    + apply endsWith_iff.
      exists (join newline templateHead ++ newline ++
              "      " ++ baseUrlStatement r ++ ";" ++ newline ++ "      ").
      now rewrite !append_assoc.
    + vm_compute. reflexivity.
    + vm_compute. reflexivity.
    + intros Hb. unfold baseUrlStatement. rewrite Hb. vm_compute. reflexivity.
  - intros text Hl Hb Hn. rewrite Hload, Hn in Hl. injection Hl as <-.
    unfold baseUrlStatement. rewrite Hb. vm_compute. reflexivity.
Qed.

Lemma crossOrigin_flag_misspelt_property_witness :
  exists r, hoistImportDeps (Some crossOriginTrue) = ok r /\
            setAnonymousCrossOrigin r = VUndefined /\
            crossOriginAttribute r = EmptyString /\
            (forall text, load r VIRTUAL_ID_IMPORT = Some text ->
                          String.index 0 "crossOrigin" text = None).
Proof.
  eexists. split; [reflexivity|].
  pose proof (@crossOrigin_flag_misspelt_property crossOriginTrue _ eq_refl eq_refl)
    as (H1 & H2 & _ & _ & H5).
  split; [exact H1 | split; [exact H2|]].
  intros text Hl. exact (H5 text Hl eq_refl eq_refl).
Defined.

(** ** getDeps *)

Section GetDepsFacts.

Variable o : Options.
Variable b : OutputBundle.

Lemma startsWith_relative (X : string) : startsWith "./" ("./" ++ X) = true.
Proof. apply startsWith_iff. now exists X. Qed.

Lemma substring1_relative (X : string) : substring1 2 ("./" ++ X) = X.
Proof. exact (substring1_append "./" X). Qed.

Lemma startsWith_relative_js (X : string) :
  startsWith "./" (X ++ ".js") = startsWith "./" X.
Proof.
  apply Bool.eq_iff_eq_true. rewrite !startsWith_iff. split.
  - intros [r Hr]. destruct X as [|x [|y X]]; simpl in Hr; try discriminate.
    injection Hr as -> -> _. now exists X.
  - intros [r ->]. now exists (r ++ ".js").
Qed.

(** A leading [./] is dropped before the graph is read. *)
Lemma getDeps_relative_prefix (X : string) :
  startsWith "./" X = false ->
  getDeps o ("./" ++ X) b = getDeps o X b.
Proof.
  intros H. unfold getDeps.
  rewrite startsWith_relative, substring1_relative, H. reflexivity.
Qed.

(** A name without extension is looked up with [.js] added; the imports lose
    their extension only when the method is ['import']. *)
Lemma getDeps_without_extension (X : string) :
  startsWith "./" X = false ->
  endsWith ".js" X = false ->
  strictEqString (method o) "import" = false ->
  getDeps o X b = getDeps o (X ++ ".js") b.
Proof.
  intros Hp He Hm. unfold getDeps.
  rewrite startsWith_relative_js, Hp, He.
  assert (Hjs : endsWith ".js" (X ++ ".js") = true) by (apply endsWith_iff; now exists X).
  rewrite Hjs, Hm. simpl. reflexivity.
Qed.

End GetDepsFacts.

(** C6, amended.  Let [X] be a name that neither begins with [./] nor ends
    in [.js].  Whatever the method, [./X.js] gives what [X.js] gives, and
    [./X] gives what [X] gives.  When the method is not ['import'], [X] gives
    what [X.js] gives.  Under the method ['import'], when [X.js] is a chunk
    of the bundle, [X.js] gives its imports with [./] in front and [X] gives
    them with [./] in front and without their last three characters; when
    [X.js] is not a chunk of the bundle, [X] gives what [X.js] gives. *)
Theorem getDeps_reference_forms (o : Options) (b : OutputBundle) (X : string) :
  startsWith "./" X = false ->
  endsWith ".js" X = false ->
  getDeps o ("./" ++ X ++ ".js") b = getDeps o (X ++ ".js") b /\
  getDeps o ("./" ++ X) b = getDeps o X b /\
  (strictEqString (method o) "import" = false ->
   getDeps o X b = getDeps o (X ++ ".js") b) /\
  (strictEqString (method o) "import" = true ->
   (forall t, lookup (X ++ ".js") b = Some (Chunk t) ->
              getDeps o (X ++ ".js") b =
                ok (join "," (map (fun s => quoted ("./" ++ s)) (imports t))) /\
              getDeps o X b =
                ok (join ","
                      (map (fun s => quoted ("./" ++ substring2 0 (String.length s - 3) s))
                           (imports t)))) /\
   ((forall t, lookup (X ++ ".js") b <> Some (Chunk t)) ->
    getDeps o X b = getDeps o (X ++ ".js") b)).
Proof.
  intros Hp He.
  assert (Hjs : endsWith ".js" (X ++ ".js") = true) by (apply endsWith_iff; now exists X).
  split; [|split; [|split]].
  - apply getDeps_relative_prefix. now rewrite startsWith_relative_js.
  - now apply getDeps_relative_prefix.
  - now apply getDeps_without_extension.
  - intros Hm. split.
    + intros t Hl. unfold getDeps.
      rewrite startsWith_relative_js, Hp, He, Hjs, Hm. cbn [negb andb]. rewrite Hl.
      destruct (imports t) as [|i l]; [split; reflexivity|].
      cbn [List.length Nat.ltb Nat.leb]. split; reflexivity.
    + intros Hn. unfold getDeps.
      rewrite startsWith_relative_js, Hp, He, Hjs. cbn [negb].
      destruct (lookup (X ++ ".js") b) as [[t|a]|] eqn:Hl; try reflexivity.
      now destruct (Hn t).
Qed.

Lemma getDeps_reference_forms_witness :
  getDeps importOptions "./t.js" graph = getDeps importOptions "t.js" graph /\
  getDeps importOptions "./t" graph = getDeps importOptions "t" graph /\
  getDeps defaultOptions "t" graph = getDeps defaultOptions "t.js" graph /\
  getDeps importOptions "t.js" graph = ok (quoted "./a.js" ++ "," ++ quoted "./b.js") /\
  getDeps importOptions "t" graph = ok (quoted "./a" ++ "," ++ quoted "./b").
Proof.
  destruct (@getDeps_reference_forms importOptions graph "t" eq_refl eq_refl)
    as (H1 & H2 & _ & H4).
  destruct (@getDeps_reference_forms defaultOptions graph "t" eq_refl eq_refl)
    as (_ & _ & H3 & _).
  destruct (proj1 (H4 eq_refl) targetChunk eq_refl) as (H5 & H6).
  split; [exact H1 | split; [exact H2 | split; [exact (H3 eq_refl) | split]]].
  - exact H5.
  - exact H6.
Defined.

(** C6 as stated fails: under the method ['import'] the name [t] and the name
    [t.js] give different lists. *)
Lemma getDeps_reference_forms_counterexample :
  getDeps importOptions "t.js" graph = ok (quoted "./a.js" ++ "," ++ quoted "./b.js") /\
  getDeps importOptions "t" graph = ok (quoted "./a" ++ "," ++ quoted "./b") /\
  getDeps importOptions "t" graph <> getDeps importOptions "t.js" graph.
Proof.
  split; [reflexivity | split; [reflexivity | discriminate]].
Qed.

(** ** The walk *)

Lemma last_cons_default (A : Type) (l : list A) (a d : A) :
  List.last (a :: l) d = List.last l a.
Proof.
  revert a d. induction l as [|x l IH]; intros a d; [reflexivity|].
  change (List.last (x :: l) d = List.last (x :: l) a). now rewrite !IH.
Qed.

(** The inner walk keeps the value of the last literal it meets. *)
Lemma fold_enterWrapped (visits : list (node * option node)) (init : option litval) :
  fold_left (fun acc v => st <- acc ;; enterWrapped (fst v) (snd v) st) visits (ok init) =
  ok (List.last
        (map Some (flat_map (fun v => match fst v with
                                      | Literal _ _ _ value => [value]
                                      | _ => []
                                      end) visits))
        init).
Proof.
  revert init. induction visits as [|[n p] visits IH]; intros init; [reflexivity|].
  cbn [fold_left flat_map fst snd]. destruct n; cbn [enterWrapped JS.bind ok app map];
    rewrite IH; try reflexivity.
  now rewrite last_cons_default.
Qed.

(** C2, amended.  When the first argument of the call around a marker is not
    a dynamic import, the name recovered from it is the value of the LAST
    literal of that argument in the order of the walk, and nothing when the
    argument holds no literal. *)
Theorem wrapped_import_name_is_last_literal (importExpr : node) :
  isImportExpression importExpr = false ->
  importChunkNameOf importExpr =
    ok (List.last (map Some (literalValues importExpr)) None).
Proof.
  intros H. unfold importChunkNameOf, literalValues, walk.
  destruct importExpr; try discriminate; apply fold_enterWrapped.
Qed.

Lemma wrapped_import_name_is_last_literal_witness :
  importChunkNameOf wrappedImport = ok (Some (LString "/x.js")).
Proof.
  exact (@wrapped_import_name_is_last_literal wrappedImport eq_refl).
Defined.

(** C2 as stated fails: in [wrappedImport] the first literal of the walk is
    ['en'], the name recovered is [/x.js]. *)
Lemma wrapped_import_name_counterexample :
  isImportExpression wrappedImport = false /\
  firstLiteralValue wrappedImport = Some (LString "en") /\
  importChunkNameOf wrappedImport = ok (Some (LString "/x.js")) /\
  importChunkNameOf wrappedImport <> ok (firstLiteralValue wrappedImport).
Proof.
  repeat split; discriminate.
Qed.

(** A callback that does nothing outside the visits selected by [p] can be
    run on those visits alone. *)
Lemma fold_left_filter (V S : Type) (step : V -> S -> result S) (p : V -> bool)
      (visits : list V) (acc : result S) :
  (forall v st, p v = false -> step v st = ok st) ->
  fold_left (fun acc v => st <- acc ;; step v st) visits acc =
  fold_left (fun acc v => st <- acc ;; step v st) (filter p visits) acc.
Proof.
  intros Hskip. revert acc. induction visits as [|v visits IH]; intros acc; [reflexivity|].
  cbn [fold_left filter]. destruct (p v) eqn:Hp.
  - cbn [fold_left]. apply IH.
  - rewrite IH. f_equal. destruct acc as [e|st]; [reflexivity|].
    cbn [JS.bind]. now apply Hskip.
Qed.

Lemma fold_left_throw (V S : Type) (step : V -> S -> result S) (visits : list V) (e : exn) :
  fold_left (fun acc v => st <- acc ;; step v st) visits (inl e) = inl e.
Proof. induction visits as [|v visits IH]; [reflexivity | exact IH]. Qed.

(** The walk of [transform] acts at the dynamic imports only. *)
Lemma walk_enterTransform (ast : node) (st : MagicString.t * bool) :
  walk enterTransform ast st =
  fold_left (fun acc n => st <- acc ;; enterTransform n None st)
            (importExpressions ast) (ok st).
Proof.
  unfold walk, importExpressions.
  rewrite (@fold_left_filter _ _ (fun v => enterTransform (fst v) (snd v))
             (fun v => isImportExpression (fst v))).
  - generalize (preorder None ast) (ok st). intros l.
    induction l as [|[n p] l IH]; intros acc; [reflexivity|].
    cbn [filter map fst]. destruct (isImportExpression n); cbn [fold_left]; apply IH.
  - intros [n p] st' H. destruct n; try reflexivity. discriminate.
Qed.

(** The walk of [generateBundle] acts at the marker literals only. *)
Lemma walk_enterBundle (o : Options) (b : OutputBundle) (ast : node) (ms : MagicString.t) :
  walk (enterBundle o b) ast ms =
  fold_left (fun acc v => st <- acc ;; enterBundle o b (fst v) (snd v) st)
            (markerVisits ast) (ok ms).
Proof.
  unfold walk, markerVisits. apply fold_left_filter.
  intros [n p] st H. destruct n; try reflexivity.
  cbn [fst isMarker] in H. cbn [enterBundle fst snd]. now rewrite H.
Qed.

(** ** transform *)

(** C5.  A unit whose tree holds no dynamic import is returned as it is:
    [transform] answers [null], whatever the text and the id; so does a unit
    that does not parse. *)
Theorem transform_without_dynamic_import
        (parse : string -> string + node) (code id : string) :
  (forall ast, parse code = inr ast -> importExpressions ast = []) ->
  exists warnings, transform parse code id = ok (None, warnings).
Proof.
  intros H. unfold transform.
  destruct (String.eqb id VIRTUAL_ID_IMPORT); [now exists []|].
  destruct (firstpass code); cbn [negb]; [|now exists []].
  destruct (parse code) as [err|ast] eqn:Hp; [now eexists|].
  rewrite walk_enterTransform, (H ast eq_refl). cbn. now exists [].
Qed.

Lemma transform_without_dynamic_import_witness :
  exists warnings, transform sampleParse unitCode "unit.js" = ok (None, warnings).
Proof.
  apply (@transform_without_dynamic_import sampleParse unitCode "unit.js").
  intros ast H. injection H as <-. reflexivity.
Defined.

(** ** Parse errors *)

(** C8, amended.  A text that the parser rejects is left alone and the build
    goes on, with a warning when the pass has called the parser.  In
    [transform], for a unit that is not the virtual module and whose text
    passes the pre-filter, the answer is [null] with one warning that names
    the unit.  In [generateBundle], for a chunk with dynamic imports, the
    turn of the loop leaves the bundle as it is, adds one warning that names
    the chunk's file, and the loop goes on with the remaining chunks.  The
    virtual module, a text that the pre-filter refuses and a chunk without
    dynamic imports are not parsed: they are left alone without a warning,
    whatever the parser would say. *)
Theorem parse_error_is_recoverable (parse : string -> string + node) (o : Options) :
  (forall code id err,
      String.eqb id VIRTUAL_ID_IMPORT = false ->
      firstpass code = true ->
      parse code = inl err ->
      transform parse code id = ok (None, [parseWarning id err])) /\
  (forall b warnings chunkName chunk keys err,
      lookup chunkName b = Some (Chunk chunk) ->
      dynamicImports chunk <> [] ->
      parse (code chunk) = inl err ->
      generateBundleLoop parse o (chunkName :: keys) (b, warnings) =
      generateBundleLoop parse o keys
        (b, (warnings ++ [parseWarning (fileName chunk) err])%list)) /\
  (forall id err, exists before after,
      message (parseWarning id err) = before ++ id ++ after) /\
  (forall code id,
      String.eqb id VIRTUAL_ID_IMPORT = true \/ firstpass code = false ->
      transform parse code id = ok (None, [])) /\
  (forall b warnings chunkName chunk keys,
      lookup chunkName b = Some (Chunk chunk) ->
      dynamicImports chunk = [] ->
      generateBundleLoop parse o (chunkName :: keys) (b, warnings) =
      generateBundleLoop parse o keys (b, warnings)).
Proof.
  split; [|split; [|split; [|split]]].
  - intros code id err Hid Hfp Hp. unfold transform. now rewrite Hid, Hfp, Hp.
  - intros b warnings chunkName chunk keys err Hl Hd Hp.
    cbn [generateBundleLoop]. unfold generateBundleStep. rewrite Hl, Hp.
    destruct (dynamicImports chunk); [congruence|]. reflexivity.
  - intros id err.
    exists "rollup-plugin-hoist-import-deps: failed to parse ", ("." ++ newline ++ err).
    reflexivity.
  - intros code id [Hid|Hfp]; unfold transform.
    + now rewrite Hid.
    + rewrite Hfp. now destruct (String.eqb id VIRTUAL_ID_IMPORT).
  - intros b warnings chunkName chunk keys Hl Hd.
    cbn [generateBundleLoop]. unfold generateBundleStep. now rewrite Hl, Hd.
Qed.

Lemma parse_error_is_recoverable_witness :
  transform sampleParse brokenCode "broken.js" =
    ok (None, [parseWarning "broken.js" "SyntaxError: Unexpected token"]) /\
  generateBundle sampleParse defaultOptions brokenBundle =
    ok (brokenBundle, [parseWarning "broken.js" "SyntaxError: Unexpected token"]).
Proof.
  destruct (parse_error_is_recoverable sampleParse defaultOptions) as (Ht & Hg & _).
  split.
  - apply Ht; reflexivity.
  - unfold generateBundle. cbn [map fst brokenBundle].
    rewrite (Hg brokenBundle [] "broken.js" brokenChunk ["t.js"]
                "SyntaxError: Unexpected token" eq_refl); [reflexivity | discriminate | reflexivity].
Defined.

(** C8 as stated fails: the text [const = ;] does not parse, yet neither pass
    gives a warning for it, because neither pass calls the parser: the text
    does not pass the pre-filter of [transform], and the chunk has no dynamic
    import. *)
Lemma parse_error_without_warning_counterexample :
  sampleParse silentCode = inl "SyntaxError: Unexpected token" /\
  firstpass silentCode = false /\
  transform sampleParse silentCode "silent.js" = ok (None, []) /\
  generateBundle sampleParse defaultOptions silentBundle = ok (silentBundle, []).
Proof.
  split; [reflexivity | split; [reflexivity | split; reflexivity]].
Qed.

(** ** magic-string: insertions *)

Ltac nat_tests :=
  repeat match goal with
         | |- context [Nat.eqb ?x ?y] =>
             first [ rewrite (proj2 (Nat.eqb_eq x y)) by lia
                   | rewrite (proj2 (Nat.eqb_neq x y)) by lia ]
         | |- context [Nat.ltb ?x ?y] =>
             first [ rewrite (proj2 (Nat.ltb_lt x y)) by lia
                   | rewrite (proj2 (Nat.ltb_ge x y)) by lia ]
         end.

Lemma length_nonempty (t : string) : t <> EmptyString <-> 0 < String.length t.
Proof. destruct t; simpl; split; intros; try lia; congruence. Qed.

Lemma substring_0_length_le (k : nat) (t : string) :
  k <= String.length t -> String.length (String.substring 0 k t) = k.
Proof.
  revert k; induction t as [|c t IH]; intros [|k] H; simpl in *; try lia.
  rewrite IH; lia.
Qed.

Lemma find_none_all (A : Type) (p : A -> bool) (l : list A) :
  (forall x, In x l -> p x = false) -> find p l = None.
Proof.
  induction l as [|x l IH]; intros H; [reflexivity|].
  simpl. rewrite (H x (or_introl eq_refl)). apply IH. intros y Hy. apply H. now right.
Qed.

Section Representation.

Variables L R : nat -> string.

Lemma Rep_bounds (a : nat) (s : string) (cs : list MagicString.Chunk) :
  Rep L R a s cs ->
  forall c, In c cs ->
    a <= MagicString.start c /\ MagicString.start c < MagicString.end_ c /\
    MagicString.end_ c <= a + String.length s.
Proof.
  induction 1 as [a | a t s cs Ht Hin Hrep IH]; intros c Hc; [contradiction|].
  apply length_nonempty in Ht. rewrite length_append.
  destruct Hc as [<- | Hc]; simpl; [lia|].
  specialize (IH c Hc). lia.
Qed.

Lemma Rep_no_start (a i : nat) (s : string) (cs : list MagicString.Chunk) :
  Rep L R a s cs -> i < a \/ a + String.length s <= i ->
  find (MagicString.startsAt i) cs = None.
Proof.
  intros H Hi. apply find_none_all. intros c Hc.
  destruct (Rep_bounds H c Hc) as (? & ? & ?).
  unfold MagicString.startsAt. apply Nat.eqb_neq. lia.
Qed.

Lemma Rep_no_end (a i : nat) (s : string) (cs : list MagicString.Chunk) :
  Rep L R a s cs -> i <= a \/ a + String.length s < i ->
  find (MagicString.endsAt i) cs = None.
Proof.
  intros H Hi. apply find_none_all. intros c Hc.
  destruct (Rep_bounds H c Hc) as (? & ? & ?).
  unfold MagicString.endsAt. apply Nat.eqb_neq. lia.
Qed.

(** Only the insertions at the offsets of the text matter. *)
Lemma Rep_ext (L' R' : nat -> string) (a : nat) (s : string) (cs : list MagicString.Chunk) :
  Rep L R a s cs ->
  (forall j, a < j -> L j = L' j) ->
  (forall j, a <= j < a + String.length s -> R j = R' j) ->
  Rep L' R' a s cs.
Proof.
  induction 1 as [a | a t s cs Ht Hin Hrep IH]; intros HL HR; [constructor|].
  pose proof (proj1 (length_nonempty t) Ht) as Hlen.
  rewrite length_append in HR.
  rewrite (HL (a + String.length t)) by lia. rewrite (HR a) by lia.
  constructor; [exact Ht | |].
  - intros i Hi. rewrite <- (HL i), <- (HR i) by lia. now apply Hin.
  - apply IH; intros j Hj; [apply HL | apply HR]; lia.
Qed.

(** The text printed by the chunks. *)
Lemma weave_cons (a : nat) (c : ascii) (r : string) :
  weave L R a (String c r) = L a ++ R a ++ String c (weave L R (S a) r).
Proof. reflexivity. Qed.

Lemma weave_pristine (a : nat) (t rest : string) :
  (forall i, a < i < a + String.length t -> L i = EmptyString /\ R i = EmptyString) ->
  t <> EmptyString ->
  weave L R a (t ++ rest) = L a ++ R a ++ t ++ weave L R (a + String.length t) rest.
Proof.
  revert a. induction t as [|c t IH]; intros a Hin Ht; [congruence|].
  change (String c t ++ rest) with (String c (t ++ rest)). rewrite weave_cons.
  destruct t as [|d t].
  - cbn [append String.length]. now replace (a + 1) with (S a) by lia.
  - rewrite (IH (S a)); [| |discriminate].
    + destruct (Hin (S a)) as [-> ->]; [cbn [String.length]; lia|].
      cbn [append String.length]. replace (S a + S (String.length t)) with
        (a + S (S (String.length t))) by lia. reflexivity.
    + intros i Hi. apply Hin. cbn [String.length] in *. lia.
Qed.

Lemma Rep_toString (a : nat) (s : string) (cs : list MagicString.Chunk) :
  Rep L R a s cs ->
  L a ++ MagicString.chunksToString cs ++ R (a + String.length s) = weave L R a s.
Proof.
  induction 1 as [a | a t s cs Ht Hin Hrep IH].
  - cbn. now rewrite Nat.add_0_r, append_nil_r.
  - rewrite (@weave_pristine a t s Hin Ht), <- IH.
    cbn [MagicString.chunksToString fold_right]. unfold MagicString.chunkToString.
    cbn [MagicString.intro MagicString.content MagicString.outro].
    rewrite length_append, Nat.add_assoc.
    fold (MagicString.chunksToString cs).
    now rewrite !append_assoc.
Qed.

End Representation.

Section Insertions.

Variables L R : nat -> string.
Variable text : string.
Variable i : nat.

Ltac ms_simpl :=
  cbn [JS.bind ok MagicString.chunks find MagicString.updateFirst MagicString.splitChunks
       MagicString.source MagicString.head MagicString.tail andb].

(** A chunk that lies before the offset [i] stays in front. *)
Lemma prependLeft_cons (src h t : string) (c : MagicString.Chunk)
      (cs : list MagicString.Chunk) :
  MagicString.end_ c < i ->
  MagicString.start c < MagicString.end_ c ->
  MagicString.prependLeft (MagicString.mk src h t (c :: cs)) i text =
  (ms <- MagicString.prependLeft (MagicString.mk src h t cs) i text ;;
   ok (MagicString.mk (MagicString.source ms) (MagicString.head ms) (MagicString.tail ms)
                      (c :: MagicString.chunks ms))).
Proof.
  intros H1 H2.
  assert (Hs : MagicString.startsAt i c = false)
    by (unfold MagicString.startsAt; apply Nat.eqb_neq; lia).
  assert (He : MagicString.endsAt i c = false)
    by (unfold MagicString.endsAt; apply Nat.eqb_neq; lia).
  assert (Hc : Nat.ltb i (MagicString.end_ c) = false) by (apply Nat.ltb_ge; lia).
  unfold MagicString.prependLeft, MagicString.split, MagicString.byStart, MagicString.byEnd.
  ms_simpl. rewrite Hs, He, Hc, andb_false_r.
  destruct (find (MagicString.startsAt i) cs), (find (MagicString.endsAt i) cs) eqn:He';
    ms_simpl; rewrite ?He, ?He'; try reflexivity.
  destruct (MagicString.splitChunks cs i) as [e|cs1]; ms_simpl; [reflexivity|].
  rewrite He. destruct (find (MagicString.endsAt i) cs1); ms_simpl; rewrite ?He; reflexivity.
Qed.

Lemma appendRight_cons (src h t : string) (c : MagicString.Chunk)
      (cs : list MagicString.Chunk) :
  MagicString.end_ c <= i ->
  MagicString.start c < MagicString.end_ c ->
  (MagicString.end_ c = i -> find (MagicString.startsAt i) cs <> None) ->
  MagicString.appendRight (MagicString.mk src h t (c :: cs)) i text =
  (ms <- MagicString.appendRight (MagicString.mk src h t cs) i text ;;
   ok (MagicString.mk (MagicString.source ms) (MagicString.head ms) (MagicString.tail ms)
                      (c :: MagicString.chunks ms))).
Proof.
  intros H1 H2 H3.
  assert (Hs : MagicString.startsAt i c = false)
    by (unfold MagicString.startsAt; apply Nat.eqb_neq; lia).
  assert (Hc : Nat.ltb i (MagicString.end_ c) = false) by (apply Nat.ltb_ge; lia).
  unfold MagicString.appendRight, MagicString.split, MagicString.byStart, MagicString.byEnd.
  ms_simpl. rewrite Hs.
  destruct (find (MagicString.startsAt i) cs) eqn:Hs'.
  - ms_simpl. rewrite Hs, Hs'. reflexivity.
  - assert (He : MagicString.endsAt i c = false).
    { unfold MagicString.endsAt. apply Nat.eqb_neq. intros Heq. now apply H3. }
    rewrite He, Hc, andb_false_r.
    destruct (find (MagicString.endsAt i) cs); ms_simpl; rewrite ?Hs, ?Hs'; try reflexivity.
    destruct (MagicString.splitChunks cs i) as [e|cs1]; ms_simpl; [reflexivity|].
    rewrite Hs. destruct (find (MagicString.startsAt i) cs1); ms_simpl; rewrite ?Hs; reflexivity.
Qed.

Lemma substring2_0 (k : nat) (s : string) : substring2 0 k s = String.substring 0 k s.
Proof. unfold substring2. now rewrite Nat.min_0_l, Nat.max_0_l, Nat.sub_0_r. Qed.

(** The two halves of a chunk that is cut at the offset [a + k]. *)
Lemma halves (k : nat) (t0 : string) :
  0 < k < String.length t0 ->
  substring2 0 k t0 ++ substring1 k t0 = t0 /\
  String.length (substring2 0 k t0) = k /\
  String.length (substring1 k t0) = String.length t0 - k /\
  substring2 0 k t0 <> EmptyString /\ substring1 k t0 <> EmptyString.
Proof.
  intros Hk. rewrite substring2_0.
  assert (H1 : String.length (String.substring 0 k t0) = k)
    by (apply substring_0_length_le; lia).
  assert (H2 : String.length (substring1 k t0) = String.length t0 - k)
    by (apply substring1_length; lia).
  repeat split; try assumption.
  - apply substring_split.
  - apply length_nonempty. lia.
  - apply length_nonempty. lia.
Qed.

Lemma Rep_two (L' R' : nat -> string) (a : nat) (t1 t2 s : string)
      (cs : list MagicString.Chunk) :
  t1 <> EmptyString -> t2 <> EmptyString ->
  (forall j, a < j < a + String.length t1 -> L' j = EmptyString /\ R' j = EmptyString) ->
  (forall j, a + String.length t1 < j < a + String.length t1 + String.length t2 ->
             L' j = EmptyString /\ R' j = EmptyString) ->
  Rep L' R' (a + String.length t1 + String.length t2) s cs ->
  Rep L' R' a ((t1 ++ t2) ++ s)
      (MagicString.mkChunk a (a + String.length t1) t1 (R' a) t1
                           (L' (a + String.length t1)) false
       :: MagicString.mkChunk (a + String.length t1)
            (a + String.length t1 + String.length t2) t2 (R' (a + String.length t1)) t2
            (L' (a + String.length t1 + String.length t2)) false
       :: cs).
Proof.
  intros H1 H2 Hin1 Hin2 Hrep. rewrite append_assoc.
  constructor; [assumption | assumption |]. constructor; assumption.
Qed.

(** Inserting on the left of an offset inside the text, or at its end. *)
Lemma prependLeft_Rep (a : nat) (s : string) (cs : list MagicString.Chunk) :
  Rep L R a s cs ->
  a < i <= a + String.length s ->
  forall src h t, exists cs',
    MagicString.prependLeft (MagicString.mk src h t cs) i text =
      ok (MagicString.mk src h t cs') /\
    Rep (upd L i (text ++ L i)) R a s cs'.
Proof.
  induction 1 as [a | a t0 s cs Ht Hin Hrep IH]; intros Hi src h t;
    [cbn [String.length] in Hi; lia|].
  pose proof (proj1 (length_nonempty t0) Ht) as Hlen.
  rewrite length_append in Hi.
  destruct (lt_eq_lt_dec i (a + String.length t0)) as [[Hlt|Heq]|Hgt].
  - (* inside the first chunk *)
    unfold MagicString.prependLeft, MagicString.split, MagicString.byStart, MagicString.byEnd.
    ms_simpl. unfold MagicString.startsAt at 1, MagicString.endsAt at 1.
    cbn [MagicString.start MagicString.end_ MagicString.edited MagicString.content].
    nat_tests.
    rewrite (Rep_no_start (i := i) Hrep) by lia.
    rewrite (Rep_no_end (i := i) Hrep) by lia.
    ms_simpl. cbn [MagicString.splitChunk MagicString.start MagicString.end_ MagicString.edited MagicString.content MagicString.original MagicString.intro MagicString.outro].
    ms_simpl. unfold MagicString.endsAt at 1. cbn [MagicString.end_]. nat_tests.
    unfold MagicString.endsAt at 1. cbn [MagicString.end_]. nat_tests.
    unfold MagicString.prependOutro. cbn [MagicString.start MagicString.end_ MagicString.edited MagicString.content MagicString.original MagicString.intro MagicString.outro].
    eexists. split; [reflexivity|].
    destruct (@halves (i - a) t0 ltac:(lia)) as (Hsplit & Hl1 & Hl2 & Hn1 & Hn2).
    remember (substring2 0 (i - a) t0) as t1. remember (substring1 (i - a) t0) as t2.
    assert (Hi1 : a + String.length t1 = i) by lia.
    assert (Hi2 : a + String.length t1 + String.length t2 = a + String.length t0) by lia.
    destruct (Hin i ltac:(lia)) as [HLi HRi].
    pose proof (@Rep_two (upd L i (text ++ L i)) R a t1 t2 s cs Hn1 Hn2) as H.
    rewrite Hi2, Hi1, Hsplit in H.
    assert (E1 : upd L i (text ++ L i) i = text ++ EmptyString)
      by (unfold upd; now rewrite Nat.eqb_refl, HLi).
    assert (E2 : upd L i (text ++ L i) (a + String.length t0) = L (a + String.length t0))
      by (unfold upd; nat_tests; reflexivity).
    rewrite E1, E2 in H.
    rewrite HRi in H. apply H.
    + intros j Hj. unfold upd. nat_tests. apply Hin. lia.
    + intros j Hj. unfold upd. nat_tests. apply Hin. lia.
    + apply (@Rep_ext L R _ _ _ _ _ Hrep); [|reflexivity]. intros j Hj. unfold upd. nat_tests. reflexivity.
  - (* at the end of the first chunk *)
    unfold MagicString.prependLeft, MagicString.split, MagicString.byStart, MagicString.byEnd.
    ms_simpl. unfold MagicString.startsAt at 1, MagicString.endsAt at 1.
    cbn [MagicString.start MagicString.end_]. nat_tests.
    destruct (find (MagicString.startsAt i) cs); ms_simpl;
      unfold MagicString.endsAt at 1; cbn [MagicString.end_]; nat_tests;
      unfold MagicString.endsAt at 1; cbn [MagicString.end_]; nat_tests;
      (eexists; split; [reflexivity|]);
      unfold MagicString.prependOutro;
      cbn [MagicString.start MagicString.end_ MagicString.edited MagicString.content
           MagicString.original MagicString.intro MagicString.outro];
      (replace (text ++ L (a + String.length t0))
         with (upd L i (text ++ L i) (a + String.length t0))
        by (unfold upd; nat_tests; now rewrite Heq));
      (constructor; [exact Ht | |]);
      try (intros j Hj; unfold upd; nat_tests; now apply Hin);
      (apply (@Rep_ext L R _ _ _ _ _ Hrep); [|reflexivity]; intros j Hj; unfold upd; nat_tests; reflexivity).
  - (* after the first chunk *)
    rewrite prependLeft_cons by (cbn; lia).
    destruct (IH ltac:(lia) src h t) as (cs' & -> & Hrep').
    ms_simpl. eexists. split; [reflexivity|].
    replace (L (a + String.length t0)) with (upd L i (text ++ L i) (a + String.length t0))
      by (unfold upd; nat_tests; reflexivity).
    constructor; [exact Ht | | exact Hrep'].
    intros j Hj. unfold upd. nat_tests. now apply Hin.
Qed.


Lemma Rep_head_start (a : nat) (s : string) (cs : list MagicString.Chunk) :
  Rep L R a s cs -> 0 < String.length s -> find (MagicString.startsAt a) cs <> None.
Proof.
  destruct 1 as [a | a t0 s cs Ht Hin Hrep]; intros Hs; [cbn in Hs; lia|].
  cbn [find]. unfold MagicString.startsAt at 1. cbn [MagicString.start].
  rewrite Nat.eqb_refl. discriminate.
Qed.

(** Inserting on the right of an offset inside the text, or at its start. *)
Lemma appendRight_Rep (a : nat) (s : string) (cs : list MagicString.Chunk) :
  Rep L R a s cs ->
  a <= i < a + String.length s ->
  forall src h t, exists cs',
    MagicString.appendRight (MagicString.mk src h t cs) i text =
      ok (MagicString.mk src h t cs') /\
    Rep L (upd R i (R i ++ text)) a s cs'.
Proof.
  induction 1 as [a | a t0 s cs Ht Hin Hrep IH]; intros Hi src h t;
    [cbn [String.length] in Hi; lia|].
  pose proof (proj1 (length_nonempty t0) Ht) as Hlen.
  rewrite length_append in Hi.
  destruct (lt_eq_lt_dec i a) as [[Hlt|Heq]|Hgt]; [lia | |].
  - (* at the start of the first chunk *)
    unfold MagicString.appendRight, MagicString.split, MagicString.byStart, MagicString.byEnd.
    ms_simpl. unfold MagicString.startsAt at 1. cbn [MagicString.start]. nat_tests.
    ms_simpl. unfold MagicString.startsAt at 1. cbn [MagicString.start]. nat_tests.
    unfold MagicString.startsAt at 1. cbn [MagicString.start]. nat_tests.
    eexists. split; [reflexivity|].
    unfold MagicString.appendIntro.
    cbn [MagicString.start MagicString.end_ MagicString.edited MagicString.content
         MagicString.original MagicString.intro MagicString.outro].
    replace (R a ++ text) with (upd R i (R i ++ text) a)
      by (unfold upd; nat_tests; now rewrite Heq).
    constructor; [exact Ht | |].
    + intros j Hj. unfold upd. nat_tests. now apply Hin.
    + apply (@Rep_ext L R _ _ _ _ _ Hrep); [reflexivity|].
      intros j Hj. unfold upd. nat_tests. reflexivity.
  - destruct (le_lt_dec (a + String.length t0) i) as [Hge|Hlt].
    + (* after the first chunk *)
      rewrite appendRight_cons; cbn [MagicString.start MagicString.end_]; try lia.
      * destruct (IH ltac:(lia) src h t) as (cs' & -> & Hrep').
        ms_simpl. eexists. split; [reflexivity|].
        replace (R a) with (upd R i (R i ++ text) a) by (unfold upd; nat_tests; reflexivity).
        constructor; [exact Ht | | exact Hrep'].
        intros j Hj. unfold upd. nat_tests. now apply Hin.
      * intros <-. apply (Rep_head_start Hrep). lia.
    + (* inside the first chunk *)
      unfold MagicString.appendRight, MagicString.split, MagicString.byStart, MagicString.byEnd.
      ms_simpl. unfold MagicString.startsAt at 1, MagicString.endsAt at 1.
      cbn [MagicString.start MagicString.end_ MagicString.edited MagicString.content].
      nat_tests.
      rewrite (Rep_no_start (i := i) Hrep) by lia.
      rewrite (Rep_no_end (i := i) Hrep) by lia.
      ms_simpl.
      cbn [MagicString.splitChunk MagicString.start MagicString.end_ MagicString.edited
           MagicString.content MagicString.original MagicString.intro MagicString.outro].
      ms_simpl. unfold MagicString.startsAt at 1 2. cbn [MagicString.start]. nat_tests.
      unfold MagicString.startsAt at 1 2. cbn [MagicString.start]. nat_tests.
      unfold MagicString.appendIntro.
      cbn [MagicString.start MagicString.end_ MagicString.edited MagicString.content
           MagicString.original MagicString.intro MagicString.outro].
      eexists. split; [reflexivity|].
      destruct (@halves (i - a) t0 ltac:(lia)) as (Hsplit & Hl1 & Hl2 & Hn1 & Hn2).
      remember (substring2 0 (i - a) t0) as t1. remember (substring1 (i - a) t0) as t2.
      assert (Hi1 : a + String.length t1 = i) by lia.
      assert (Hi2 : a + String.length t1 + String.length t2 = a + String.length t0) by lia.
      destruct (Hin i ltac:(lia)) as [HLi HRi].
      pose proof (@Rep_two L (upd R i (R i ++ text)) a t1 t2 s cs Hn1 Hn2) as H.
      rewrite Hi2, Hi1, Hsplit in H.
      assert (E1 : upd R i (R i ++ text) i = EmptyString ++ text)
        by (unfold upd; now rewrite Nat.eqb_refl, HRi).
      assert (E2 : upd R i (R i ++ text) a = R a)
        by (unfold upd; nat_tests; reflexivity).
      rewrite E1, E2 in H. rewrite HLi in H. apply H.
      * intros j Hj. unfold upd. nat_tests. apply Hin. lia.
      * intros j Hj. unfold upd. nat_tests. apply Hin. lia.
      * apply (@Rep_ext L R _ _ _ _ _ Hrep); [reflexivity|].
        intros j Hj. unfold upd. nat_tests. reflexivity.
Qed.

End Insertions.

Lemma Rep_last_end (L R : nat -> string) (a : nat) (s : string)
      (cs : list MagicString.Chunk) :
  Rep L R a s cs -> 0 < String.length s ->
  find (MagicString.endsAt (a + String.length s)) cs <> None.
Proof.
  induction 1 as [a | a t0 s cs Ht Hin Hrep IH]; intros Hs; [cbn in Hs; lia|].
  apply length_nonempty in Ht. rewrite length_append.
  cbn [find]. unfold MagicString.endsAt at 1. cbn [MagicString.end_].
  destruct (Nat.eqb_spec (a + String.length t0) (a + (String.length t0 + String.length s)));
    [discriminate|].
  rewrite Nat.add_assoc. apply IH. lia.
Qed.

Lemma weave_ext (L R L' R' : nat -> string) (s : string) :
  (forall j, L j = L' j) -> (forall j, R j = R' j) ->
  forall i, weave L R i s = weave L' R' i s.
Proof.
  intros HL HR. induction s as [|c s IH]; intros i; cbn [weave]; rewrite HL, HR;
    [reflexivity | now rewrite IH].
Qed.

Section Invariant.

Variable code : string.
Hypothesis code_nonempty : code <> EmptyString.

Lemma Inv_new :
  Inv code (fun _ => EmptyString) (fun _ => EmptyString) (MagicString.new code).
Proof.
  unfold Inv, MagicString.new. cbn [MagicString.head MagicString.tail MagicString.chunks].
  repeat split.
  pose proof (@Rep_cons (fun _ => EmptyString) (fun _ => EmptyString) 0 code EmptyString []
                code_nonempty) as H.
  rewrite append_nil_r in H. apply H; [auto | constructor].
Qed.

Lemma Inv_ext (L R L' R' : nat -> string) (ms : MagicString.t) :
  Inv code L R ms -> (forall j, L j = L' j) -> (forall j, R j = R' j) -> Inv code L' R' ms.
Proof.
  intros (Hh & Ht & Hrep) HL HR. repeat split.
  - now rewrite Hh.
  - now rewrite Ht.
  - apply (@Rep_ext L R _ _ _ _ _ Hrep); auto.
Qed.

Lemma Inv_prependLeft (L R : nat -> string) (ms : MagicString.t) (i : nat) (text : string) :
  Inv code L R ms -> i <= String.length code ->
  exists ms', MagicString.prependLeft ms i text = ok ms' /\
              Inv code (upd L i (text ++ L i)) R ms'.
Proof.
  intros (Hh & Ht & Hrep) Hi. destruct ms as [src h t cs].
  cbn [MagicString.head MagicString.tail MagicString.chunks] in *.
  pose proof (proj1 (length_nonempty code) code_nonempty) as Hlen.
  destruct i as [|i].
  - unfold MagicString.prependLeft, MagicString.split, MagicString.byStart, MagicString.byEnd.
    cbn [MagicString.chunks].
    destruct (find (MagicString.startsAt 0) cs) eqn:Hs;
      [|now apply (Rep_head_start Hrep) in Hs].
    cbn [JS.bind ok MagicString.chunks MagicString.source MagicString.head MagicString.tail].
    rewrite (Rep_no_end (i := 0) Hrep) by lia.
    eexists. split; [reflexivity|]. repeat split.
    + cbn [MagicString.head]. unfold upd. cbn. now rewrite Hh.
    + exact Ht.
    + apply (@Rep_ext L R _ _ _ _ _ Hrep); [|reflexivity].
      intros j Hj. unfold upd. nat_tests. reflexivity.
  - destruct (@prependLeft_Rep L R text (S i) 0 code cs Hrep ltac:(lia) src h t)
      as (cs' & -> & Hrep').
    eexists. split; [reflexivity|]. repeat split; [|exact Ht|exact Hrep'].
    exact Hh.
Qed.

Lemma Inv_appendRight (L R : nat -> string) (ms : MagicString.t) (i : nat) (text : string) :
  Inv code L R ms -> i <= String.length code ->
  exists ms', MagicString.appendRight ms i text = ok ms' /\
              Inv code L (upd R i (R i ++ text)) ms'.
Proof.
  intros (Hh & Ht & Hrep) Hi. destruct ms as [src h t cs].
  cbn [MagicString.head MagicString.tail MagicString.chunks] in *.
  pose proof (proj1 (length_nonempty code) code_nonempty) as Hlen.
  destruct (Nat.eq_dec i (String.length code)) as [->|Hne].
  - unfold MagicString.appendRight, MagicString.split, MagicString.byStart, MagicString.byEnd.
    cbn [MagicString.chunks].
    rewrite (Rep_no_start (i := String.length code) Hrep) by lia.
    destruct (find (MagicString.endsAt (String.length code)) cs) eqn:He;
      [|now apply (Rep_last_end Hrep) in He].
    cbn [JS.bind ok MagicString.chunks MagicString.source MagicString.head MagicString.tail].
    rewrite (Rep_no_start (i := String.length code) Hrep) by lia.
    eexists. split; [reflexivity|]. repeat split.
    + exact Hh.
    + cbn [MagicString.tail]. unfold upd. rewrite Nat.eqb_refl. now rewrite Ht.
    + apply (@Rep_ext L R _ _ _ _ _ Hrep); [reflexivity|].
      intros j Hj. unfold upd. nat_tests. reflexivity.
  - destruct (@appendRight_Rep L R text i 0 code cs Hrep ltac:(lia) src h t)
      as (cs' & -> & Hrep').
    eexists. split; [reflexivity|]. repeat split; [exact Hh| |exact Hrep'].
    cbn [MagicString.tail]. unfold upd. nat_tests. exact Ht.
Qed.

Lemma Inv_toString (L R : nat -> string) (ms : MagicString.t) :
  Inv code L R ms -> MagicString.toString ms = weave L R 0 code.
Proof.
  intros (Hh & Ht & Hrep). unfold MagicString.toString. rewrite Hh, Ht.
  apply (Rep_toString Hrep).
Qed.

End Invariant.

Lemma times_comm (k : nat) (s : string) : times k s ++ s = s ++ times k s.
Proof.
  induction k as [|k IH]; cbn [times]; [now rewrite append_nil_r|].
  now rewrite append_assoc, IH.
Qed.

Lemma length_times (k : nat) (s : string) :
  String.length (times k s) = k * String.length s.
Proof. induction k as [|k IH]; cbn [times]; [reflexivity|]. rewrite length_append, IH. lia. Qed.

Lemma firstpass_nonempty (code : string) : firstpass code = true -> code <> EmptyString.
Proof. intros H ->. discriminate. Qed.

Lemma forallb_filter_id (A : Type) (p : A -> bool) (l : list A) :
  forallb p (filter p l) = true.
Proof.
  induction l as [|x l IH]; [reflexivity|]. cbn [filter].
  destruct (p x) eqn:Hp; [|exact IH]. cbn [forallb]. now rewrite Hp.
Qed.

Lemma startingAt_cons (j : nat) (n : node) (nodes : list node) :
  startingAt j (n :: nodes) =
  (if Nat.eqb (start n) j then 1 else 0) + startingAt j nodes.
Proof. unfold startingAt. cbn [filter]. now destruct (Nat.eqb (start n) j). Qed.

Lemma endingAt_cons (j : nat) (n : node) (nodes : list node) :
  endingAt j (n :: nodes) =
  (if Nat.eqb (end_ n) j then 1 else 0) + endingAt j nodes.
Proof. unfold endingAt. cbn [filter]. now destruct (Nat.eqb (end_ n) j). Qed.

(** The walk of [transform] never raises, and inserts one opening at the
    start and one closing at the end of every dynamic import. *)
Lemma fold_enterTransform (code : string) (imports : list node) :
  code <> EmptyString ->
  forallb isImportExpression imports = true ->
  forallb (inText code) imports = true ->
  forall L R ms b, Inv code L R ms ->
  exists ms',
    fold_left (fun acc n => st <- acc ;; enterTransform n None st) imports (ok (ms, b)) =
      ok (ms', match imports with [] => b | _ => true end) /\
    Inv code (fun j => times (startingAt j imports) wrapperOpen ++ L j)
             (fun j => R j ++ times (endingAt j imports) wrapperClose) ms'.
Proof.
  intros Hcode. induction imports as [|n imports IH]; intros Himp Hin L R ms b Hinv.
  - exists ms. split; [reflexivity|].
    apply Inv_ext with (L := L) (R := R); [exact Hinv | |]; intros j; cbn;
      [reflexivity | now rewrite append_nil_r].
  - cbn [forallb] in Himp, Hin.
    apply andb_true_iff in Himp as [Hn Himp]. apply andb_true_iff in Hin as [Hn' Hin].
    destruct n as [| s e src | |]; try discriminate.
    unfold inText in Hn'. cbn [start end_] in Hn'.
    apply andb_true_iff in Hn' as [Hs He]. apply Nat.leb_le in Hs, He.
    destruct (@Inv_prependLeft code Hcode L R ms s wrapperOpen Hinv Hs) as (ms1 & H1 & Hinv1).
    destruct (@Inv_appendRight code Hcode _ R ms1 e wrapperClose Hinv1 He) as (ms2 & H2 & Hinv2).
    destruct (IH Himp Hin _ _ ms2 true Hinv2) as (ms' & Hfold & Hinv').
    exists ms'. split.
    + cbn [fold_left JS.bind ok enterTransform fst]. rewrite H1. cbn [JS.bind ok].
      rewrite H2. cbn [JS.bind ok]. rewrite Hfold. now destruct imports.
    + eapply Inv_ext; [exact Hinv' | |]; intros j.
      * rewrite startingAt_cons. cbn [start]. unfold upd. rewrite (Nat.eqb_sym s j).
        destruct (Nat.eqb_spec j s) as [->|]; [|reflexivity].
        cbn [Nat.add times]. now rewrite <- !append_assoc, times_comm.
      * rewrite endingAt_cons. cbn [end_]. unfold upd. rewrite (Nat.eqb_sym e j).
        destruct (Nat.eqb_spec j e) as [->|]; [|reflexivity].
        cbn [Nat.add times]. now rewrite !append_assoc.
Qed.

Lemma weave_ext_from (L R L' R' : nat -> string) (s : string) :
  forall a, (forall j, a <= j -> L j = L' j) -> (forall j, a <= j -> R j = R' j) ->
  weave L R a s = weave L' R' a s.
Proof.
  induction s as [|c s IH]; intros a HL HR; cbn [weave]; rewrite (HL a), (HR a) by lia;
    [reflexivity|].
  rewrite (IH (S a)); [reflexivity | |]; intros j Hj; [apply HL | apply HR]; lia.
Qed.

Lemma weave_nothing (L R : nat -> string) (s : string) :
  (forall j, L j = EmptyString) -> (forall j, R j = EmptyString) ->
  forall a, weave L R a s = s.
Proof.
  intros HL HR. induction s as [|c s IH]; intros a; cbn [weave]; rewrite HL, HR;
    [reflexivity|]. cbn [append]. now rewrite IH.
Qed.

(** Every insertion at an offset of the text makes the text longer by its
    length. *)
Lemma weave_upd_length (L R : nat -> string) (x y : string) (s : string) :
  forall i a, a <= i <= a + String.length s ->
  String.length (weave (upd L i (x ++ L i)) R a s) =
    String.length (weave L R a s) + String.length x /\
  String.length (weave L (upd R i (R i ++ y)) a s) =
    String.length (weave L R a s) + String.length y.
Proof.
  induction s as [|c s IH]; intros i a Hi; cbn [weave String.length] in *.
  - assert (i = a) as -> by lia. unfold upd. rewrite Nat.eqb_refl.
    rewrite !length_append. cbn [String.length]. lia.
  - rewrite !length_append. cbn [String.length]. unfold upd at 1 3.
    destruct (Nat.eqb_spec a i) as [->|Hne].
    + rewrite !length_append.
      rewrite (@weave_ext_from (upd L i (x ++ L i)) R L R s (S i));
        [| intros j Hj; unfold upd; nat_tests; reflexivity | reflexivity].
      rewrite (@weave_ext_from L (upd R i (R i ++ y)) L R s (S i));
        [| reflexivity | intros j Hj; unfold upd; nat_tests; reflexivity].
      lia.
    + destruct (IH i (S a) ltac:(lia)) as [-> ->]. lia.
Qed.

(** The text with its wrappers is longer than the text by one opening and one
    closing for every dynamic import. *)
Lemma length_wrapImports (code : string) (imports : list node) :
  forallb (inText code) imports = true ->
  String.length (wrapImports imports code) =
  String.length code +
  List.length imports * (String.length wrapperOpen + String.length wrapperClose).
Proof.
  unfold wrapImports. induction imports as [|n imports IH]; intros Hin.
  - rewrite weave_nothing; [cbn; lia | reflexivity | reflexivity].
  - cbn [forallb] in Hin. apply andb_true_iff in Hin as [Hn Hin].
    unfold inText in Hn. apply andb_true_iff in Hn as [Hs He]. apply Nat.leb_le in Hs, He.
    specialize (IH Hin).
    set (L0 := fun j => times (startingAt j imports) wrapperOpen) in *.
    set (R0 := fun j => times (endingAt j imports) wrapperClose) in *.
    rewrite (@weave_ext _ _ (upd L0 (start n) (wrapperOpen ++ L0 (start n)))
               (upd R0 (end_ n) (R0 (end_ n) ++ wrapperClose))).
    + destruct (@weave_upd_length L0 (upd R0 (end_ n) (R0 (end_ n) ++ wrapperClose))
                  wrapperOpen EmptyString code (start n) 0 ltac:(lia)) as [-> _].
      destruct (@weave_upd_length L0 R0 EmptyString wrapperClose code (end_ n) 0 ltac:(lia))
        as [_ ->].
      rewrite IH. cbn [List.length]. lia.
    + intros j. rewrite startingAt_cons. unfold upd, L0. rewrite (Nat.eqb_sym (start n) j).
      destruct (Nat.eqb_spec j (start n)) as [->|]; reflexivity.
    + intros j. rewrite endingAt_cons. unfold upd, R0. rewrite (Nat.eqb_sym (end_ n) j).
      destruct (Nat.eqb_spec j (end_ n)) as [->|]; [|reflexivity]. cbn [Nat.add times].
      now rewrite times_comm.
Qed.

(** C4, amended.  For a unit that is not the virtual module, whose text
    matches the pre-filter and whose tree holds N >= 1 dynamic imports at
    offsets of the text, [transform] returns the statement that imports
    [__loadDeps] from the virtual module, followed by the text of the unit
    in which every dynamic import has the opening of a call of [__loadDeps]
    inserted in front of it and the marker and the closing bracket inserted
    behind it; the original characters are all there, and the text is longer
    by N openings and N closings. *)
Theorem transform_wraps_every_import
        (parse : string -> string + node) (code id : string) (ast : node) :
  String.eqb id VIRTUAL_ID_IMPORT = false ->
  firstpass code = true ->
  parse code = inr ast ->
  importExpressions ast <> [] ->
  forallb (inText code) (importExpressions ast) = true ->
  transform parse code id =
    ok (Some (loaderImport ++ wrapImports (importExpressions ast) code), []) /\
  String.length (wrapImports (importExpressions ast) code) =
    String.length code +
    List.length (importExpressions ast) *
      (String.length wrapperOpen + String.length wrapperClose).
Proof.
  intros Hid Hfp Hparse Hne Hin. split; [|now apply length_wrapImports].
  unfold transform. rewrite Hid, Hfp, Hparse. cbn [negb].
  rewrite walk_enterTransform.
  pose proof (@firstpass_nonempty code Hfp) as Hcode.
  destruct (@fold_enterTransform code (importExpressions ast) Hcode
              (@forallb_filter_id _ _ _) Hin _ _ _ false (@Inv_new code Hcode))
    as (ms & -> & Hinv).
  cbn [JS.bind ok snd fst]. destruct (importExpressions ast) eqn:Himp; [congruence|].
  cbn [negb]. do 3 f_equal.
  unfold MagicString.toString, MagicString.prepend.
  cbn [MagicString.head MagicString.tail MagicString.chunks].
  rewrite append_assoc. f_equal.
  change (MagicString.toString ms = wrapImports (n :: l) code).
  rewrite (Inv_toString Hinv). unfold wrapImports.
  apply weave_ext; intros j; [now rewrite append_nil_r | reflexivity].
Qed.

Lemma transform_wraps_every_import_witness :
  transform sampleParse twoImportsCode "unit.js" =
    ok (Some (loaderImport ++
              "__loadDeps(import('./a.js'), " ++ MARKER ++ "); " ++
              "__loadDeps(import('./b.js'), " ++ MARKER ++ ");"), []) /\
  String.length (wrapImports (importExpressions twoImportsAst) twoImportsCode) = 35 + 2 * 31.
Proof.
  apply (@transform_wraps_every_import sampleParse twoImportsCode "unit.js" twoImportsAst);
    [reflexivity | reflexivity | reflexivity | discriminate | reflexivity].
Defined.

(** C4 as stated fails: the text [import/**/('./x.js');] holds one dynamic
    import and does not match the pre-filter; [transform] leaves it as it is. *)
Lemma transform_wraps_every_import_counterexample :
  sampleParse commentedImportCode = inr commentedImportAst /\
  List.length (importExpressions commentedImportAst) = 1 /\
  firstpass commentedImportCode = false /\
  transform sampleParse commentedImportCode "unit.js" = ok (None, []).
Proof. repeat split. Qed.

(** ** magic-string: overwriting *)

Lemma substring_add (s : string) :
  forall a k1 k2,
    String.substring a (k1 + k2) s =
    String.substring a k1 s ++ String.substring (a + k1) k2 s.
Proof.
  induction s as [|c s IH]; intros a k1 k2.
  - destruct a, k1, k2; reflexivity.
  - destruct a as [|a].
    + destruct k1 as [|k1]; [reflexivity|].
      cbn [Nat.add String.substring append]. f_equal. apply (IH 0).
    + cbn [Nat.add String.substring]. apply IH.
Qed.

Lemma slice_le (a b : nat) (s : string) :
  a <= b -> slice a b s = String.substring a (b - a) s.
Proof.
  intros H. unfold slice, substring2. now rewrite Nat.min_l, Nat.max_r by lia.
Qed.

Lemma slice_append (a b c : nat) (s : string) :
  a <= b <= c -> slice a b s ++ slice b c s = slice a c s.
Proof.
  intros H. rewrite !slice_le by lia.
  replace (c - a) with ((b - a) + (c - b)) by lia.
  rewrite substring_add. now replace (a + (b - a)) with b by lia.
Qed.

Lemma slice_full (s : string) : slice 0 (String.length s) s = s.
Proof. rewrite slice_le by lia. rewrite Nat.sub_0_r. apply substring_0_length. Qed.

Lemma substring_length (s : string) :
  forall a k, a + k <= String.length s -> String.length (String.substring a k s) = k.
Proof.
  induction s as [|c s IH]; intros a k H; cbn [String.length] in H.
  - assert (a = 0 /\ k = 0) as [-> ->] by lia. reflexivity.
  - destruct a as [|a].
    + destruct k as [|k]; [reflexivity|]. cbn [String.substring String.length].
      rewrite (IH 0); lia.
    + cbn [String.substring]. apply IH. lia.
Qed.

Lemma slice_length (a b : nat) (s : string) :
  a <= b <= String.length s -> String.length (slice a b s) = b - a.
Proof. intros H. rewrite slice_le by lia. apply substring_length. lia. Qed.

Lemma startsAt_mk (i s e : nat) (o i0 c0 o0 : string) (ed : bool) :
  MagicString.startsAt i (MagicString.mkChunk s e o i0 c0 o0 ed) = Nat.eqb s i.
Proof. reflexivity. Qed.

Lemma endsAt_mk (i s e : nat) (o i0 c0 o0 : string) (ed : bool) :
  MagicString.endsAt i (MagicString.mkChunk s e o i0 c0 o0 ed) = Nat.eqb e i.
Proof. reflexivity. Qed.

Lemma length_zero (r : string) (k : nat) : String.length r = k -> k = 0 -> r = EmptyString.
Proof. intros H ->. destruct r; [reflexivity | discriminate]. Qed.

Section Overwrite.

Variable a : nat.
Variable front : list MagicString.Chunk.
Hypothesis front_before :
  forall c, In c front -> MagicString.start c < a /\ MagicString.end_ c <= a.

Lemma find_start_front (i : nat) (l : list MagicString.Chunk) :
  a <= i -> find (MagicString.startsAt i) (front ++ l)%list = find (MagicString.startsAt i) l.
Proof.
  intros Hi. induction front as [|c f IH]; [reflexivity|].
  cbn [app find]. destruct (front_before c (or_introl eq_refl)) as [Hs He].
  unfold MagicString.startsAt at 1. nat_tests. apply IH.
  intros c' Hc'. apply front_before. now right.
Qed.

Lemma find_end_front (i : nat) (l : list MagicString.Chunk) :
  a < i -> find (MagicString.endsAt i) (front ++ l)%list = find (MagicString.endsAt i) l.
Proof.
  intros Hi. induction front as [|c f IH]; [reflexivity|].
  cbn [app find]. destruct (front_before c (or_introl eq_refl)) as [Hs He].
  unfold MagicString.endsAt at 1. nat_tests. apply IH.
  intros c' Hc'. apply front_before. now right.
Qed.

Lemma splitChunks_front (i : nat) (l : list MagicString.Chunk) :
  a <= i ->
  MagicString.splitChunks (front ++ l)%list i =
  (l' <- MagicString.splitChunks l i ;; ok (front ++ l')%list).
Proof.
  intros Hi. induction front as [|c f IH].
  - cbn [app]. now destruct (MagicString.splitChunks l i).
  - cbn [app MagicString.splitChunks].
    destruct (front_before c (or_introl eq_refl)) as [Hs He].
    nat_tests. cbn [andb]. rewrite IH.
    + now destruct (MagicString.splitChunks l i).
    + intros c' Hc'. apply front_before. now right.
Qed.

Lemma overwriteChunks_front (s e : nat) (x : string) (l : list MagicString.Chunk) :
  a <= s ->
  MagicString.overwriteChunks (front ++ l)%list s e x =
  (l' <- MagicString.overwriteChunks l s e x ;; ok (front ++ l')%list).
Proof.
  intros Hi. induction front as [|c f IH].
  - cbn [app]. now destruct (MagicString.overwriteChunks l s e x).
  - cbn [app MagicString.overwriteChunks].
    destruct (front_before c (or_introl eq_refl)) as [Hs He].
    unfold MagicString.startsAt at 1. nat_tests. rewrite IH.
    + now destruct (MagicString.overwriteChunks l s e x).
    + intros c' Hc'. apply front_before. now right.
Qed.

Ltac ow_step :=
  repeat first
    [ rewrite find_start_front by lia
    | rewrite find_end_front by lia
    | rewrite splitChunks_front by lia
    | rewrite overwriteChunks_front by lia
    | progress cbn [JS.bind ok MagicString.chunks find MagicString.splitChunks
                    MagicString.overwriteChunks MagicString.editThrough MagicString.edit
                    MagicString.source MagicString.head MagicString.tail andb negb
                    MagicString.start MagicString.end_ MagicString.edited
                    MagicString.content MagicString.original MagicString.intro
                    MagicString.outro MagicString.splitChunk app]
    | progress unfold pristine, overwritten
    | rewrite startsAt_mk
    | rewrite endsAt_mk
    | progress nat_tests ].

(** Overwriting a range of the last chunk, which has not been touched. *)
Lemma overwrite_last (src h t r1 r2 r3 x : string) (s e n : nat) :
  a <= s -> s < e -> e <= n ->
  String.length src = n ->
  String.length r1 = s - a -> String.length r2 = e - s -> String.length r3 = n - e ->
  MagicString.overwrite
    (MagicString.mk src h t (front ++ [pristine a n (r1 ++ r2 ++ r3)])%list) s e x =
  ok (MagicString.mk src h t
        (front ++ optional a s r1 ++ [overwritten s e r2 x] ++ optional e n r3)%list).
Proof.
  intros Has Hse Hen Hsrc Hr1 Hr2 Hr3.
  unfold MagicString.overwrite. cbn [MagicString.source]. rewrite Hsrc.
  unfold optional, MagicString.split, MagicString.byStart, MagicString.byEnd.
  destruct (Nat.eq_dec a s) as [<-|Hne]; destruct (Nat.eq_dec e n) as [->|Hne'].
  - apply length_zero in Hr1; [|lia]. apply length_zero in Hr3; [|lia]. subst r1 r3.
    ow_step. unfold MagicString.edit. ow_step. cbn [append]. now rewrite append_nil_r.
  - apply length_zero in Hr1; [subst r1 | lia].
    ow_step. unfold MagicString.edit. ow_step. rewrite <- Hr2. cbn [append].
    now rewrite substring2_0, substring_0_append, substring1_append.
  - apply length_zero in Hr3; [subst r3 | lia].
    ow_step. unfold MagicString.edit. ow_step. rewrite <- Hr1.
    now rewrite substring2_0, substring_0_append, substring1_append, append_nil_r.
  - ow_step. unfold MagicString.edit. ow_step. rewrite <- Hr1, <- Hr2.
    now rewrite !substring2_0, substring_0_append, substring1_append,
      substring_0_append, substring1_append.
Qed.

End Overwrite.

Lemma chunksToString_app (l1 l2 : list MagicString.Chunk) :
  MagicString.chunksToString (l1 ++ l2)%list =
  MagicString.chunksToString l1 ++ MagicString.chunksToString l2.
Proof.
  induction l1 as [|c l1 IH]; [reflexivity|].
  cbn [app MagicString.chunksToString fold_right].
  fold (MagicString.chunksToString (l1 ++ l2)%list). fold (MagicString.chunksToString l1).
  now rewrite IH, append_assoc.
Qed.

Lemma chunksToString_optional (a b : nat) (r : string) :
  String.length r = b - a ->
  MagicString.chunksToString (optional a b r) = r.
Proof.
  intros H. unfold optional. destruct (Nat.ltb_spec a b).
  - cbn. now rewrite !append_nil_r.
  - cbn. symmetry. apply (length_zero _ H). lia.
Qed.

(** Two ranges of a fresh text, the first before the second, are replaced
    by two texts; the rest of the text stays. *)
Lemma overwrite_twice (code x y : string) (s1 e1 s2 e2 : nat) :
  s1 < e1 -> e1 <= s2 -> s2 < e2 -> e2 <= String.length code ->
  exists ms1 ms2,
    MagicString.overwrite (MagicString.new code) s1 e1 x = ok ms1 /\
    MagicString.overwrite ms1 s2 e2 y = ok ms2 /\
    MagicString.toString ms2 =
      slice 0 s1 code ++ x ++ slice e1 s2 code ++ y ++
      slice e2 (String.length code) code.
Proof.
  intros H1 H2 H3 H4. set (n := String.length code).
  assert (Hcode : code = slice 0 s1 code ++ slice s1 e1 code ++ slice e1 n code).
  { rewrite !slice_append by (unfold n; lia). symmetry. apply slice_full. }
  assert (Hrest : slice e1 n code = slice e1 s2 code ++ slice s2 e2 code ++ slice e2 n code).
  { now rewrite !slice_append by (unfold n; lia). }
  pose proof (@overwrite_last 0 [] ltac:(intros c []) code EmptyString EmptyString
                (slice 0 s1 code) (slice s1 e1 code) (slice e1 n code) x s1 e1 n
                ltac:(lia) H1 ltac:(unfold n; lia) eq_refl) as Hfirst.
  rewrite !slice_length in Hfirst by (unfold n; lia).
  specialize (Hfirst ltac:(lia) eq_refl eq_refl).
  rewrite <- Hcode in Hfirst. cbn [app] in Hfirst.
  change (MagicString.mk code EmptyString EmptyString [pristine 0 n code])
    with (MagicString.new code) in Hfirst.
  set (front := (optional 0 s1 (slice 0 s1 code) ++
                 [overwritten s1 e1 (slice s1 e1 code) x])%list) in *.
  assert (Hopt : optional e1 n (slice e1 n code) = [pristine e1 n (slice e1 n code)]).
  { unfold optional. now rewrite (proj2 (Nat.ltb_lt e1 n)) by (unfold n; lia). }
  assert (Hfront : forall c, In c front ->
                             MagicString.start c < e1 /\ MagicString.end_ c <= e1).
  { intros c Hc. unfold front in Hc. apply in_app_or in Hc as [Hc|[<-|[]]].
    - unfold optional in Hc. destruct (Nat.ltb 0 s1); [|contradiction].
      destruct Hc as [<-|[]]. cbn. lia.
    - cbn. lia. }
  pose proof (@overwrite_last e1 front Hfront code EmptyString EmptyString
                (slice e1 s2 code) (slice s2 e2 code) (slice e2 n code) y s2 e2 n
                H2 H3 ltac:(unfold n; lia) eq_refl) as Hsecond.
  rewrite !slice_length in Hsecond by (unfold n; lia).
  specialize (Hsecond eq_refl eq_refl eq_refl). rewrite <- Hrest in Hsecond.
  eexists _, _. split; [|split].
  - rewrite Hfirst. rewrite Hopt.
    replace (front ++ [pristine e1 n (slice e1 n code)])%list
      with (optional 0 s1 (slice 0 s1 code) ++
            overwritten s1 e1 (slice s1 e1 code) x :: [pristine e1 n (slice e1 n code)])%list
      by (unfold front; now rewrite <- app_assoc).
    reflexivity.
  - replace (optional 0 s1 (slice 0 s1 code) ++
             overwritten s1 e1 (slice s1 e1 code) x :: [pristine e1 n (slice e1 n code)])%list
      with (front ++ [pristine e1 n (slice e1 n code)])%list
      by (unfold front; now rewrite <- app_assoc).
    exact Hsecond.
  - unfold MagicString.toString. cbn [MagicString.head MagicString.tail MagicString.chunks].
    rewrite append_nil_r. cbn [append]. unfold front.
    rewrite !chunksToString_app, !chunksToString_optional
      by (rewrite slice_length; unfold n; lia).
    cbn. now rewrite !append_nil_r, !append_assoc.
Qed.

(** ** generateBundle *)

Section Finalize.

Variable parse : string -> string + node.
Variable o : Options.

(** A tree without marker leaves the chunk as it is. *)
Lemma setCode_same (b : OutputBundle) (k : string) (c : OutputChunk) :
  lookup k b = Some (Chunk c) -> setCode k (code c) b = b.
Proof.
  induction b as [|[k' v] b IH]; intros H; [discriminate|].
  cbn [lookup setCode] in *. destruct (String.eqb k' k).
  - injection H as ->. now destruct c.
  - now rewrite IH.
Qed.

Lemma toString_new (text : string) : MagicString.toString (MagicString.new text) = text.
Proof. unfold MagicString.toString. cbn. now rewrite !append_nil_r. Qed.

Lemma lookup_key (b : OutputBundle) (k : string) :
  In k (map fst b) -> lookup k b <> None.
Proof.
  induction b as [|[k' v] b IH]; intros H; [contradiction|].
  cbn [lookup]. destruct (String.eqb_spec k' k); [discriminate|].
  destruct H as [H|H]; [contradiction | now apply IH].
Qed.

End Finalize.

(** What [getDeps] returns. *)
Lemma getDeps_with_extension (o : Options) (b : OutputBundle) (target : string)
      (t : OutputChunk) :
  endsWith ".js" (relativeName target) = true ->
  lookup (relativeName target) b = Some (Chunk t) ->
  imports t <> [] ->
  getDeps o target b = ok (join "," (map (fun s => quoted ("./" ++ s)) (imports t))).
Proof.
  intros He Hl Hi. unfold getDeps. fold (relativeName target). rewrite He. cbn [negb].
  rewrite Hl. destruct (imports t); [congruence|]. reflexivity.
Qed.

Lemma getDeps_noImports (o : Options) (b : OutputBundle) (target : string) :
  noImports b target = true -> getDeps o target b = ok EmptyString.
Proof.
  unfold noImports, chunkFile, getDeps. fold (relativeName target).
  destruct (endsWith ".js" (relativeName target)); cbn [negb];
    destruct (lookup _ b) as [[t|a]|]; try discriminate; try reflexivity;
    destruct (imports t); try discriminate; reflexivity.
Qed.
(** C9.  The set-up raises for the method ['custom'] without a function, and
    for nothing else; but it is not the only failure that ends the build.
    With the default options, [generateBundle] raises a [TypeError] on a
    chunk that holds the wrapped import of the source [import(p[1])]: the
    name recovered is the number 1. *)
Theorem generateBundle_raises_on_number :
  hoistImportDeps None = ok defaultOptions /\
  importChunkNameOf
    (CallExpression 67 86
       (Other "MemberExpression" 67 80
          [Other "Identifier" 67 73 []; Other "Identifier" 74 80 []])
       [Other "MemberExpression" 81 85
          [Other "Identifier" 81 82 []; Literal 83 84 "1" (LNumber 1)]]) =
    ok (Some (LNumber 1)) /\
  generateBundle sampleParse defaultOptions systemBundle =
    throw (TypeError "chunkName.startsWith is not a function").
Proof.
  split; [reflexivity | split; reflexivity].
Qed.

(** * Further properties *)

(** ** Set-up and the virtual module *)

(** X1.  [canonicalize] removes one slash at the front and one at the end,
    no more: [/p/] becomes [p] for every [p], hence [//p//] becomes [/p/];
    a path without a slash at either end is returned as it is. *)
Theorem canonicalize_one_slash (p : string) :
  canonicalize ("/" ++ p ++ "/") = p /\
  canonicalize ("//" ++ p ++ "//") = "/" ++ p ++ "/" /\
  (startsWith "/" p = false -> endsWith "/" p = false -> canonicalize p = p).
Proof.
  assert (H : forall q, canonicalize ("/" ++ q ++ "/") = q).
  { intros q. unfold canonicalize.
    assert (Hs : startsWith "/" ("/" ++ q ++ "/") = true)
      by (apply startsWith_iff; now eexists).
    rewrite Hs. pose proof (substring1_append "/" (q ++ "/")) as Hsub.
    cbn [String.length] in Hsub. rewrite Hsub.
    assert (He : endsWith "/" (q ++ "/") = true) by (apply endsWith_iff; now exists q).
    rewrite He. rewrite substring2_0, length_append. cbn [String.length].
    replace (String.length q + 1 - 1) with (String.length q) by lia.
    apply substring_0_append. }
  split; [apply H | split].
  - change ("//" ++ p ++ "//") with ("/" ++ ("/" ++ p ++ "//")).
    replace ("/" ++ p ++ "//") with (("/" ++ p ++ "/") ++ "/").
    + apply (H ("/" ++ p ++ "/")).
    + cbn [append]. f_equal. now rewrite append_assoc.
  - intros Hs He. unfold canonicalize. now rewrite Hs, He.
Qed.

Lemma canonicalize_one_slash_witness :
  canonicalize "/assets/js/" = "assets/js" /\
  canonicalize "//assets//" = "/assets/" /\
  canonicalize "assets/js" = "assets/js".
Proof.
  destruct (canonicalize_one_slash "assets/js") as (H1 & _ & H3).
  destruct (canonicalize_one_slash "assets") as (_ & H2 & _).
  split; [exact H1 | split; [exact H2 | exact (H3 eq_refl eq_refl)]].
Defined.





(** The method after a set-up that succeeds. *)
Lemma hoistImportDeps_method (o : option Options) (r : Options) :
  hoistImportDeps o = ok r ->
  notNullish (method r) = true /\
  (strictEqString (method r) "custom" = true -> isFunction (customPreload r) = true).
Proof.
  unfold hoistImportDeps.
  set (o0 := match o with Some o' => o' | None => emptyOptions end).
  destruct (strictEqString _ _ && _) eqn:Hc; [discriminate|].
  intros H. injection H as <-. cbn [method customPreload]. split.
  - destruct (method o0); reflexivity.
  - intros Hm. rewrite Hm in Hc. cbn [andb] in Hc.
    now destruct (isFunction (customPreload o0)).
Qed.

(** X4.  The set-up writes into the options object it is given.  Setting a
    second plugin up with the same object succeeds and keeps the method, but
    the cross-origin flag is computed anew from the flag of the first set-up:
    for options that do not set [anononymousCrossOrigin] it is the opposite
    of what the first set-up computed. *)
Theorem hoistImportDeps_twice (o r : Options) :
  hoistImportDeps (Some o) = ok r ->
  exists r2, hoistImportDeps (Some r) = ok r2 /\
             method r2 = method r /\
             (anononymousCrossOrigin o = VUndefined ->
              JS.truthy (setAnonymousCrossOrigin r2) =
              negb (JS.truthy (setAnonymousCrossOrigin r))).
Proof.
  intros H.
  destruct (@hoistImportDeps_method (Some o) r H) as (Hn & Hc).
  unfold hoistImportDeps in H.
  destruct (strictEqString _ _ && _) eqn:Hcust in H; [discriminate|].
  injection H as Hr.
  assert (Hcp : customPreload r = customPreload o) by now rewrite <- Hr.
  assert (Han : anononymousCrossOrigin r = anononymousCrossOrigin o) by now rewrite <- Hr.
  assert (Hsa : setAnonymousCrossOrigin r =
                if notNullish (setAnonymousCrossOrigin o)
                then anononymousCrossOrigin o else VBool true) by now rewrite <- Hr.
  unfold hoistImportDeps. rewrite Hn.
  destruct (strictEqString (method r) "custom") eqn:Hm.
  - rewrite (Hc eq_refl). cbn [negb andb]. eexists. split; [reflexivity|].
    split; [reflexivity|]. cbn [setAnonymousCrossOrigin]. intros Hu.
    rewrite Han, Hsa, Hu. now destruct (notNullish (setAnonymousCrossOrigin o)).
  - cbn [andb]. eexists. split; [reflexivity|].
    split; [reflexivity|]. cbn [setAnonymousCrossOrigin]. intros Hu.
    rewrite Han, Hsa, Hu. now destruct (notNullish (setAnonymousCrossOrigin o)).
Qed.

Lemma hoistImportDeps_twice_witness :
  exists r2, hoistImportDeps (Some defaultOptions) = ok r2 /\
             method r2 = method defaultOptions /\
             (anononymousCrossOrigin emptyOptions = VUndefined ->
              JS.truthy (setAnonymousCrossOrigin r2) =
              negb (JS.truthy (setAnonymousCrossOrigin defaultOptions))).
Proof.
  exact (@hoistImportDeps_twice emptyOptions defaultOptions eq_refl).
Defined.

(** X5.  What the set-up makes of [baseUrl] in the loader: a string gives the
    statement that rewrites [dep] with the canonical base URL, also when
    that is empty; any other value gives nothing.  The loader is served for
    the virtual id only, and neither the method nor [customPreload] shows in
    it. *)
Theorem load_after_setup (o r : Options) :
  hoistImportDeps (Some o) = ok r ->
  load r VIRTUAL_ID_IMPORT =
    Some (template
            (match baseUrl o with
             | VString s => baseUrlRewrite (canonicalize s)
             | _ => EmptyString
             end)
            (crossOriginAttribute r)) /\
  (forall id, id <> VIRTUAL_ID_IMPORT -> load r id = None) /\
  (forall m f, load (mkOptions m (setAnonymousCrossOrigin r) (anononymousCrossOrigin r)
                               (baseUrl r) f) VIRTUAL_ID_IMPORT =
               load r VIRTUAL_ID_IMPORT).
Proof.
  intros H. unfold hoistImportDeps in H.
  destruct (strictEqString _ _ && _) in H; [discriminate|]. injection H as <-.
  split; [|split].
  - unfold load, loaderTemplate. rewrite String.eqb_refl. do 2 f_equal.
    unfold baseUrlStatement. cbn [baseUrl].
    destruct (baseUrl o); reflexivity.
  - intros id Hid. unfold load. apply String.eqb_neq in Hid. now rewrite Hid.
  - reflexivity.
Qed.

Lemma load_after_setup_witness :
  load (resolved (Some (mkOptions VUndefined VUndefined VUndefined (VString "/cdn/") VUndefined)))
       VIRTUAL_ID_IMPORT =
  Some (template "dep = '/cdn/' + dep.substring(2);" "crossOrigin: 'anonymous',").
Proof.
  exact (proj1 (@load_after_setup
                  (mkOptions VUndefined VUndefined VUndefined (VString "/cdn/") VUndefined)
                  _ eq_refl)).
Defined.

(** ** The pre-filter *)

Lemma firstpass_matchesHere (s : string) : matchesHere s = true -> firstpass s = true.
Proof. intros H. destruct s; cbn [firstpass]; now rewrite H. Qed.

(** Text in front of a match does not hide it. *)
Lemma firstpass_append_l (a b : string) : firstpass b = true -> firstpass (a ++ b) = true.
Proof.
  intros H. induction a as [|c a IH]; [exact H|].
  cbn [append firstpass]. rewrite IH. apply orb_true_r.
Qed.

Lemma skipSpaces_spaces (ws t : string) :
  allSpaces ws = true -> skipSpaces (ws ++ t) = skipSpaces t.
Proof.
  induction ws as [|c ws IH]; intros H; [reflexivity|].
  cbn [allSpaces] in H. apply andb_true_iff in H as [Hc H].
  cbn [append skipSpaces]. rewrite Hc. now apply IH.
Qed.

Lemma skipSpaces_split (s : string) :
  exists ws, s = ws ++ skipSpaces s /\ allSpaces ws = true.
Proof.
  induction s as [|c s (ws & Hs & Hws)]; [now exists EmptyString|].
  cbn [skipSpaces]. destruct (isSpace c) eqn:Hc.
  - exists (String c ws). cbn [append allSpaces]. rewrite Hc, Hws. split; [now f_equal | reflexivity].
  - now exists EmptyString.
Qed.

Lemma containsChar_iff (c : ascii) (s : string) :
  containsChar c s = true <-> exists a b, s = a ++ String c b.
Proof.
  split.
  - induction s as [|d s IH]; [discriminate|]. cbn [containsChar].
    destruct (Ascii.eqb_spec d c) as [->|Hne].
    + intros _. now exists EmptyString, s.
    + cbn [orb]. intros H. destruct (IH H) as (a & b & ->). now exists (String d a), b.
  - intros (a & b & ->). induction a as [|d a IH]; cbn [append containsChar].
    + now rewrite Ascii.eqb_refl.
    + rewrite IH. apply orb_true_r.
Qed.

Lemma matchesHere_iff (s : string) :
  matchesHere s = true <->
  exists ws c inside after,
    s = "import" ++ ws ++ "(" ++ String c (inside ++ ")" ++ after) /\
    allSpaces ws = true /\ c <> ")"%char.
Proof.
  unfold matchesHere. split.
  - destruct (String.prefix "import" s) eqn:Hp; [|discriminate].
    apply (proj1 (startsWith_iff "import" s)) in Hp as [r ->].
    pose proof (substring1_append "import" r) as Hsub.
    cbn [String.length] in Hsub. rewrite Hsub.
    destruct (skipSpaces_split r) as (ws & Hr & Hws).
    intros H. destruct (skipSpaces r) as [|p [|c t]]; [discriminate H | |];
      destruct p as [[] [] [] [] [] [] [] []]; try discriminate H.
    apply andb_true_iff in H as [Hc H].
    apply containsChar_iff in H as (inside & after & ->).
    exists ws, c, inside, after. split; [|split].
    + now rewrite Hr at 1.
    + exact Hws.
    + intros ->. discriminate.
  - intros (ws & c & inside & after & -> & Hws & Hc).
    assert (Hp : String.prefix "import"
                   ("import" ++ ws ++ "(" ++ String c (inside ++ ")" ++ after)) = true)
      by (apply (proj2 (startsWith_iff _ _)); now eexists).
    rewrite Hp.
    pose proof (substring1_append "import" (ws ++ "(" ++ String c (inside ++ ")" ++ after)))
      as Hsub.
    cbn [String.length] in Hsub. rewrite Hsub.
    rewrite (@skipSpaces_spaces ws _ Hws). cbn [append skipSpaces].
    change (isSpace "("%char) with false. cbv iota.
    apply andb_true_iff. split.
    + apply negb_true_iff. now apply Ascii.eqb_neq.
    + apply containsChar_iff. now exists inside, after.
Qed.

(** X6.  The pre-filter is the regular expression it stands for: it accepts
    exactly the texts in which, somewhere, [import] is followed by white
    space, an opening bracket, a character other than the closing bracket
    and, later, a closing bracket. *)
Theorem firstpass_iff (code : string) :
  firstpass code = true <-> hasImportCall code.
Proof.
  unfold hasImportCall. split.
  - induction code as [|c code IH]; cbn [firstpass].
    + rewrite orb_false_r. intros H. apply matchesHere_iff in H.
      destruct H as (ws & c & i & a & H & ?). discriminate.
    + intros H. apply orb_true_iff in H as [H|H].
      * apply matchesHere_iff in H as (ws & d & i & a & H & Hws & Hd).
        exists EmptyString, ws, d, i, a. now rewrite H.
      * destruct (IH H) as (b & ws & d & i & a & -> & Hws & Hd).
        exists (String c b), ws, d, i, a. auto.
  - intros (b & ws & c & i & a & -> & Hws & Hc).
    apply firstpass_append_l, firstpass_matchesHere, matchesHere_iff.
    now exists ws, c, i, a.
Qed.

(** X7.  The loader itself holds a dynamic import that the pre-filter
    accepts, whatever the options; [transform] nevertheless leaves the
    virtual module alone, without calling the parser, and [resolveId] claims
    the virtual id. *)
Theorem virtual_module_is_not_transformed
        (parse : string -> string + node) (o : Options) :
  exists text,
    load o VIRTUAL_ID_IMPORT = Some text /\
    firstpass text = true /\
    transform parse text VIRTUAL_ID_IMPORT = ok (None, []) /\
    resolveId VIRTUAL_ID_IMPORT = Some VIRTUAL_ID_IMPORT.
Proof.
  exists (loaderTemplate o). repeat split.
  unfold loaderTemplate, template.
  do 10 apply firstpass_append_l. vm_compute. reflexivity.
Qed.

(** ** transform, further *)

Lemma splitChunks_unedited (cs : list MagicString.Chunk) (i : nat) :
  unedited cs = true ->
  exists cs', MagicString.splitChunks cs i = ok cs' /\ unedited cs' = true.
Proof.
  induction cs as [|c cs IH]; intros H; [now exists []|].
  cbn [unedited forallb] in H. apply andb_true_iff in H as [Hc H].
  apply negb_true_iff in Hc. cbn [MagicString.splitChunks].
  destruct (Nat.ltb (MagicString.start c) i && Nat.ltb i (MagicString.end_ c)).
  - rewrite Hc. cbn [andb MagicString.splitChunk]. rewrite Hc.
    eexists. split; [reflexivity|]. cbn [unedited forallb MagicString.edited negb andb].
    exact H.
  - destruct (IH H) as (cs' & -> & H'). cbn [JS.bind ok].
    eexists. split; [reflexivity|]. cbn [unedited forallb]. rewrite Hc. exact H'.
Qed.

Lemma split_unedited (ms : MagicString.t) (i : nat) :
  unedited (MagicString.chunks ms) = true ->
  exists ms', MagicString.split ms i = ok ms' /\ unedited (MagicString.chunks ms') = true.
Proof.
  intros H. unfold MagicString.split.
  destruct (MagicString.byStart ms i); [now exists ms|].
  destruct (MagicString.byEnd ms i); [now exists ms|].
  destruct (@splitChunks_unedited (MagicString.chunks ms) i H) as (cs' & -> & H'). cbn [JS.bind ok].
  now eexists.
Qed.

Lemma updateFirst_unedited (p : MagicString.Chunk -> bool)
      (f : MagicString.Chunk -> MagicString.Chunk) (cs : list MagicString.Chunk) :
  (forall c, MagicString.edited (f c) = MagicString.edited c) ->
  unedited (MagicString.updateFirst p f cs) = unedited cs.
Proof.
  intros Hf. induction cs as [|c cs IH]; [reflexivity|].
  cbn [MagicString.updateFirst]. destruct (p c); cbn [unedited forallb].
  - now rewrite Hf.
  - fold (unedited (MagicString.updateFirst p f cs)). fold (unedited cs). now rewrite IH.
Qed.

(** Insertions never fail on a text that has not been overwritten, whatever
    the offset. *)
Lemma insert_unedited (ms : MagicString.t) (i : nat) (text : string) :
  unedited (MagicString.chunks ms) = true ->
  (exists ms', MagicString.prependLeft ms i text = ok ms' /\
               unedited (MagicString.chunks ms') = true) /\
  (exists ms', MagicString.appendRight ms i text = ok ms' /\
               unedited (MagicString.chunks ms') = true).
Proof.
  intros H. destruct (@split_unedited ms i H) as (ms1 & Hs & H1).
  unfold MagicString.prependLeft, MagicString.appendRight. rewrite Hs. cbn [JS.bind ok].
  split.
  - destruct (MagicString.byEnd ms1 i); eexists; (split; [reflexivity|]);
      cbn [MagicString.chunks]; [|exact H1].
    now rewrite updateFirst_unedited.
  - destruct (MagicString.byStart ms1 i); eexists; (split; [reflexivity|]);
      cbn [MagicString.chunks]; [|exact H1].
    now rewrite updateFirst_unedited.
Qed.

Lemma fold_enterTransform_ok (visits : list node) :
  forall ms b, unedited (MagicString.chunks ms) = true ->
  exists st, fold_left (fun acc n => st <- acc ;; enterTransform n None st) visits
                       (ok (ms, b)) = ok st.
Proof.
  induction visits as [|n visits IH]; intros ms b H; [now eexists|].
  cbn [fold_left JS.bind ok]. destruct n as [| s e src | |]; cbn [enterTransform];
    try (now apply IH).
  destruct (proj1 (@insert_unedited ms s wrapperOpen H)) as (ms1 & H1 & Hu1).
  destruct (proj2 (@insert_unedited ms1 e wrapperClose Hu1)) as (ms2 & H2 & Hu2).
  cbn [fst]. rewrite H1. cbn [JS.bind ok]. rewrite H2. cbn [JS.bind ok]. now apply IH.
Qed.

(** X8.  [transform] never raises: whatever the parser answers, also a tree
    whose offsets lie outside the text, the text is only inserted into and
    the library has nothing to refuse. *)
Theorem transform_never_raises
        (parse : string -> string + node) (code id : string) :
  exists result, transform parse code id = ok result.
Proof.
  unfold transform.
  destruct (String.eqb id VIRTUAL_ID_IMPORT); [now eexists|].
  destruct (firstpass code); cbn [negb]; [|now eexists].
  destruct (parse code) as [err|ast]; [now eexists|].
  rewrite walk_enterTransform.
  destruct (@fold_enterTransform_ok (importExpressions ast) (MagicString.new code) false
              eq_refl) as (st & ->).
  cbn [JS.bind ok]. destruct (snd st); now eexists.
Qed.

Lemma toString_prepend (ms : MagicString.t) (text : string) :
  MagicString.toString (MagicString.prepend ms text) = text ++ MagicString.toString ms.
Proof.
  unfold MagicString.toString, MagicString.prepend.
  cbn [MagicString.head MagicString.tail MagicString.chunks]. now rewrite append_assoc.
Qed.

(** X9.  When [transform] returns a text, the unit is not the virtual
    module, its text matches the pre-filter, it parses and its tree holds a
    dynamic import; the text returned begins with the import of the loader,
    and no warning is given. *)
Theorem transform_result_begins_with_import
        (parse : string -> string + node) (code id out : string) (w : list warning) :
  transform parse code id = ok (Some out, w) ->
  w = [] /\
  id <> VIRTUAL_ID_IMPORT /\
  firstpass code = true /\
  (exists ast, parse code = inr ast /\ importExpressions ast <> []) /\
  startsWith loaderImport out = true.
Proof.
  unfold transform. intros H.
  destruct (String.eqb_spec id VIRTUAL_ID_IMPORT) as [|Hid]; [discriminate H|].
  destruct (firstpass code); cbn [negb] in H; [|discriminate H].
  destruct (parse code) as [err|ast] eqn:Hp; [discriminate H|].
  rewrite walk_enterTransform in H.
  destruct (importExpressions ast) as [|n l] eqn:Himp; [cbn in H; discriminate H|].
  destruct (fold_left _ _ _) as [e|st]; [discriminate H|]. cbn [JS.bind ok] in H.
  destruct (snd st); cbn [negb] in H; [|discriminate H].
  injection H as <- <-. rewrite toString_prepend.
  split; [reflexivity|]. split; [exact Hid|]. split; [reflexivity|]. split.
  - exists ast. split; [reflexivity|]. now rewrite Himp.
  - apply startsWith_iff. now eexists.
Qed.

Lemma transform_result_begins_with_import_witness :
  firstpass twoImportsCode = true /\
  startsWith loaderImport
    (loaderImport ++ wrapImports (importExpressions twoImportsAst) twoImportsCode) = true.
Proof.
  destruct (@transform_result_begins_with_import sampleParse twoImportsCode "unit.js"
              (loaderImport ++ wrapImports (importExpressions twoImportsAst) twoImportsCode)
              [] eq_refl) as (_ & _ & H1 & _ & H2).
  split; [exact H1 | exact H2].
Defined.

Lemma weave_skip (L R : nat -> string) (p rest : string) :
  forall a,
    (forall j, a <= j < a + String.length p -> L j = EmptyString /\ R j = EmptyString) ->
    weave L R a (p ++ rest) = p ++ weave L R (a + String.length p) rest.
Proof.
  induction p as [|c p IH]; intros a H.
  - cbn [append String.length]. now rewrite Nat.add_0_r.
  - change (String c p ++ rest) with (String c (p ++ rest)). rewrite weave_cons.
    destruct (H a) as [-> ->]; [cbn [String.length]; lia|].
    cbn [append]. rewrite (IH (S a)).
    + cbn [String.length]. now replace (S a + String.length p) with (a + S (String.length p)) by lia.
    + intros j Hj. apply H. cbn [String.length]. lia.
Qed.

Lemma weave_plain (L R : nat -> string) (t : string) :
  forall a,
    (forall j, a < j <= a + String.length t -> L j = EmptyString /\ R j = EmptyString) ->
    weave L R a t = L a ++ R a ++ t.
Proof.
  induction t as [|c t IH]; intros a H; [reflexivity|].
  rewrite weave_cons. rewrite (IH (S a)).
  - destruct (H (S a)) as [-> ->]; [cbn [String.length]; lia | reflexivity].
  - intros j Hj. apply H. cbn [String.length]. lia.
Qed.

(** X10.  A unit with one dynamic import, from [s] to [e]: the text returned
    is the import of the loader, the text up to [s], [__loadDeps(], the
    dynamic import as it was, the marker with the closing bracket, and the
    rest of the text. *)
Theorem transform_single_import
        (parse : string -> string + node) (code id : string) (ast : node)
        (s e : nat) (src : option node) :
  String.eqb id VIRTUAL_ID_IMPORT = false ->
  firstpass code = true ->
  parse code = inr ast ->
  importExpressions ast = [ImportExpression s e src] ->
  s < e -> e <= String.length code ->
  transform parse code id =
    ok (Some (loaderImport ++ slice 0 s code ++ wrapperOpen ++ slice s e code ++
              wrapperClose ++ slice e (String.length code) code), []).
Proof.
  intros Hid Hfp Hparse Himp Hse Hen.
  unfold transform. rewrite Hid, Hfp, Hparse. cbn [negb].
  rewrite walk_enterTransform, Himp.
  pose proof (@firstpass_nonempty code Hfp) as Hcode.
  assert (Hin : forallb (inText code) [ImportExpression s e src] = true).
  { cbn [forallb]. unfold inText. cbn [start end_].
    rewrite (proj2 (Nat.leb_le s _)), (proj2 (Nat.leb_le e _)) by lia. reflexivity. }
  destruct (@fold_enterTransform code [ImportExpression s e src] Hcode eq_refl Hin
              _ _ _ false (@Inv_new code Hcode)) as (ms & -> & Hinv).
  cbn [JS.bind ok snd fst negb]. rewrite toString_prepend, (Inv_toString Hinv).
  do 3 f_equal.
  set (n := String.length code) in *.
  rewrite (@weave_ext _ _ (upd (fun _ => EmptyString) s wrapperOpen)
             (upd (fun _ => EmptyString) e wrapperClose)).
  2:{ intros j. rewrite startingAt_cons. cbn [start]. unfold upd, startingAt.
      rewrite (Nat.eqb_sym s j). cbn [filter List.length].
      destruct (Nat.eqb j s); cbn; now rewrite ?append_nil_r. }
  2:{ intros j. rewrite endingAt_cons. cbn [end_]. unfold upd, endingAt.
      rewrite (Nat.eqb_sym e j). cbn [filter List.length].
      destruct (Nat.eqb j e); cbn; now rewrite ?append_nil_r. }
  assert (Hsplit : code = slice 0 s code ++ slice s e code ++ slice e n code).
  { rewrite !slice_append by (unfold n; lia). symmetry. apply slice_full. }
  rewrite Hsplit at 1.
  rewrite weave_skip.
  2:{ intros j Hj. rewrite slice_length in Hj by (unfold n; lia).
      unfold upd. nat_tests. now split. }
  rewrite slice_length by (unfold n; lia). rewrite Nat.sub_0_r. cbn [Nat.add].
  rewrite weave_pristine.
  2:{ intros j Hj. rewrite slice_length in Hj by (unfold n; lia).
      unfold upd. nat_tests. now split. }
  2:{ apply length_nonempty. rewrite slice_length by (unfold n; lia). lia. }
  rewrite slice_length by (unfold n; lia). replace (s + (e - s)) with e by lia.
  rewrite weave_plain.
  2:{ intros j Hj. unfold upd. nat_tests. now split. }
  unfold upd. rewrite !Nat.eqb_refl. nat_tests. reflexivity.
Qed.

Lemma transform_single_import_witness :
  transform (fun _ => inr spacedImportAst) spacedImportCode "unit.js" =
    ok (Some (loaderImport ++ "__loadDeps(import ('./x.js')" ++ wrapperClose ++ ";"), []).
Proof.
  exact (@transform_single_import (fun _ => inr spacedImportAst) spacedImportCode
           "unit.js" spacedImportAst 0 17 _ eq_refl eq_refl eq_refl eq_refl
           ltac:(lia) ltac:(cbn; lia)).
Defined.

(** ** getDeps, further *)

(** X11.  [getDeps] returns the empty string exactly when the bundle has no
    chunk for the name or a chunk without static imports. *)
Theorem getDeps_empty_iff (o : Options) (b : OutputBundle) (name : string) :
  getDeps o name b = ok EmptyString <-> noImports b name = true.
Proof.
  split; [|apply getDeps_noImports].
  unfold getDeps, noImports, chunkFile. fold (relativeName name).
  destruct (endsWith ".js" (relativeName name)); cbn [negb];
    (destruct (lookup _ b) as [[t|a]|]; [|discriminate|reflexivity]);
    (destruct (imports t) as [|i l]; [reflexivity|]);
    cbn [List.length Nat.ltb Nat.leb]; intros H; injection H as H;
    destruct (map _ l); unfold quoted, dquote in H; discriminate H.
Qed.

(** X12.  A name without extension under the method ['import']: the chunk
    is looked up with [.js] added, and its imports are written without
    their [.js]. *)
Theorem getDeps_import_method (o : Options) (b : OutputBundle) (name : string)
        (t : OutputChunk) (bases : list string) :
  strictEqString (method o) "import" = true ->
  endsWith ".js" (relativeName name) = false ->
  lookup (relativeName name ++ ".js") b = Some (Chunk t) ->
  imports t = map (fun base => base ++ ".js") bases ->
  bases <> [] ->
  getDeps o name b = ok (join "," (map (fun base => quoted ("./" ++ base)) bases)).
Proof.
  intros Hm He Hl Hi Hb. unfold getDeps. fold (relativeName name).
  rewrite He. cbn [negb]. rewrite Hl, Hi, Hm. cbn [andb].
  assert (Hlen : Nat.ltb 0 (List.length (map (fun base => base ++ ".js") bases)) = true)
    by (destruct bases; [congruence | reflexivity]).
  rewrite Hlen. do 2 f_equal.
  rewrite map_map. apply map_ext. intros base.
  rewrite length_append. cbn [String.length].
  replace (String.length base + 3 - 3) with (String.length base) by lia.
  now rewrite substring2_0, substring_0_append.
Qed.

Lemma getDeps_import_method_witness :
  getDeps importOptions "./t" graph = ok (quoted "./a" ++ "," ++ quoted "./b").
Proof.
  exact (@getDeps_import_method importOptions graph "./t" targetChunk ["a"; "b"]
           eq_refl eq_refl eq_refl eq_refl ltac:(discriminate)).
Defined.

(** ** generateBundle, further *)

Lemma sameEntry_refl (v : output) : sameEntry v v.
Proof. destruct v; cbn; auto. Qed.

Lemma sameEntry_trans (u v w : output) : sameEntry u v -> sameEntry v w -> sameEntry u w.
Proof.
  destruct u, v, w; cbn; try tauto; try congruence.
  intros (? & ? & ?) (? & ? & ?). repeat split; congruence.
Qed.

Lemma sameGraph_refl (b : OutputBundle) : sameGraph b b.
Proof. induction b; constructor; auto using sameEntry_refl. Qed.

Lemma sameGraph_trans (a b c : OutputBundle) :
  sameGraph a b -> sameGraph b c -> sameGraph a c.
Proof.
  intros H. revert c. induction H as [|x y a b [Hk He] H IH]; intros c Hc;
    inversion Hc as [|y' z b' c' [Hk' He'] H']; subst; constructor.
  - split; [congruence | eauto using sameEntry_trans].
  - now apply IH.
Qed.

Lemma setCode_sameGraph (k text : string) (b : OutputBundle) : sameGraph b (setCode k text b).
Proof.
  induction b as [|[k' v] b IH]; [constructor|]. cbn [setCode].
  destruct (String.eqb k' k).
  - constructor; [|apply sameGraph_refl]. split; [reflexivity|]. destruct v; cbn; auto.
  - constructor; [|exact IH]. split; [reflexivity | apply sameEntry_refl].
Qed.

Lemma lookup_sameGraph (b b' : OutputBundle) (k : string) :
  sameGraph b b' ->
  match lookup k b, lookup k b' with
  | Some v, Some v' => sameEntry v v'
  | None, None => True
  | _, _ => False
  end.
Proof.
  induction 1 as [|[k1 v1] [k2 v2] b b' [Hk He] H IH]; [exact I|].
  cbn [fst snd] in Hk, He. subst k2. cbn [lookup].
  destruct (String.eqb k1 k); [exact He | exact IH].
Qed.

Lemma sameGraph_keys (b b' : OutputBundle) : sameGraph b b' -> map fst b' = map fst b.
Proof.
  induction 1 as [|x y b b' [Hk He] H IH]; [reflexivity|]. cbn [map]. now rewrite IH, Hk.
Qed.

Lemma getDeps_sameGraph (o : Options) (b b' : OutputBundle) (name : string) :
  sameGraph b b' -> getDeps o name b' = getDeps o name b.
Proof.
  intros H. unfold getDeps.
  set (n := if negb _ then _ else _).
  pose proof (lookup_sameGraph n H) as Hl.
  destruct (lookup n b) as [[c|a]|], (lookup n b') as [[c'|a']|]; try contradiction;
    try reflexivity.
  cbn in Hl. destruct Hl as (_ & <- & _). reflexivity.
Qed.

Section Further.

Variable parse : string -> string + node.
Variable o : Options.

Lemma generateBundleStep_sameGraph (b b' : OutputBundle) (w w' : list warning) (k : string) :
  generateBundleStep parse o (b, w) k = ok (b', w') -> sameGraph b b'.
Proof.
  unfold generateBundleStep.
  destruct (lookup k b) as [[c|a]|]; [| |discriminate].
  - destruct (Nat.eqb _ 0).
    + intros H. injection H as <- _. apply sameGraph_refl.
    + destruct (parse (code c)) as [err|ast].
      * intros H. injection H as <- _. apply sameGraph_refl.
      * destruct (walk _ _ _) as [e|ms]; [discriminate|]. cbn [JS.bind ok].
        intros H. injection H as <- _. apply setCode_sameGraph.
  - intros H. injection H as <- _. apply sameGraph_refl.
Qed.

Lemma generateBundleLoop_sameGraph (keys : list string) :
  forall b w b' w',
    generateBundleLoop parse o keys (b, w) = ok (b', w') -> sameGraph b b'.
Proof.
  induction keys as [|k keys IH]; intros b w b' w' H; cbn [generateBundleLoop] in H.
  - injection H as <- _. apply sameGraph_refl.
  - destruct (generateBundleStep parse o (b, w) k) as [e|[b1 w1]] eqn:Hs; [discriminate|].
    cbn [JS.bind ok] in H. apply generateBundleStep_sameGraph in Hs.
    apply IH in H. eauto using sameGraph_trans.
Qed.

(** X13.  [generateBundle] changes nothing but the code of chunks: the keys,
    the assets, and the file name, imports and dynamic imports of every
    chunk are those of the bundle it was given.  So the dependencies that
    [getDeps] reads are the same at every turn of the loop, whatever the
    order of the chunks. *)
Theorem generateBundle_keeps_graph (b b' : OutputBundle) (w : list warning) :
  generateBundle parse o b = ok (b', w) ->
  sameGraph b b' /\
  map fst b' = map fst b /\
  (forall o' name, getDeps o' name b' = getDeps o' name b).
Proof.
  intros H. apply generateBundleLoop_sameGraph in H.
  split; [exact H | split; [now apply sameGraph_keys|]].
  intros o' name. now apply getDeps_sameGraph.
Qed.

(** X14.  A bundle in which no chunk has dynamic imports is returned as it
    is, without a warning and without a call of the parser. *)
Theorem generateBundle_without_dynamic_imports (b : OutputBundle) :
  (forall k c, lookup k b = Some (Chunk c) -> dynamicImports c = []) ->
  generateBundle parse o b = ok (b, []).
Proof.
  intros H. unfold generateBundle.
  assert (Hk : forall k, In k (map fst b) -> lookup k b <> None) by apply lookup_key.
  revert Hk. generalize (map fst b) as keys.
  induction keys as [|k keys IH]; intros Hk; [reflexivity|].
  cbn [generateBundleLoop]. unfold generateBundleStep at 1.
  specialize (Hk k (or_introl eq_refl)) as Hl.
  destruct (lookup k b) as [[c|a]|] eqn:Hlk; [| |congruence].
  - rewrite (H k c Hlk). cbn [List.length Nat.eqb JS.bind ok]. apply IH.
    intros k' Hk'. apply Hk. now right.
  - cbn [JS.bind ok]. apply IH. intros k' Hk'. apply Hk. now right.
Qed.

End Further.

Lemma generateBundle_keeps_graph_witness :
  sameGraph siteBundle siteDoneBundle /\
  map fst siteDoneBundle = map fst siteBundle /\
  (forall o' name, getDeps o' name siteDoneBundle = getDeps o' name siteBundle).
Proof.
  exact (@generateBundle_keeps_graph sampleParse defaultOptions siteBundle siteDoneBundle []
           eq_refl).
Defined.

Lemma generateBundle_without_dynamic_imports_witness :
  generateBundle (fun _ => inl "never called") defaultOptions graph = ok (graph, []).
Proof.
  apply (@generateBundle_without_dynamic_imports (fun _ => inl "never called")
           defaultOptions graph).
  intros k c H. cbn [lookup graph] in H.
  destruct (String.eqb "t.js" k); [|discriminate]. now injection H as <-.
Defined.

Lemma overwrite_once (code x : string) (s e : nat) :
  s < e -> e <= String.length code ->
  exists ms, MagicString.overwrite (MagicString.new code) s e x = ok ms.
Proof.
  intros H1 H2. set (n := String.length code).
  assert (Hcode : code = slice 0 s code ++ slice s e code ++ slice e n code).
  { rewrite !slice_append by (unfold n; lia). symmetry. apply slice_full. }
  pose proof (@overwrite_last 0 [] ltac:(intros c []) code EmptyString EmptyString
                (slice 0 s code) (slice s e code) (slice e n code) x s e n
                ltac:(lia) H1 H2 eq_refl) as H.
  rewrite !slice_length in H by (unfold n; lia).
  specialize (H ltac:(lia) eq_refl eq_refl). rewrite <- Hcode in H. cbn [app] in H.
  eexists. exact H.
Qed.

Lemma markerVisits_head (ast : node) (v : node * option node)
      (rest : list (node * option node)) :
  markerVisits ast = v :: rest -> isMarker (fst v) = true.
Proof.
  intros H.
  pose proof (@forallb_filter_id _ (fun v => isMarker (fst v)) (preorder None ast)) as Hf.
  fold (markerVisits ast) in Hf. rewrite H in Hf. cbn [forallb] in Hf.
  now apply andb_true_iff in Hf as [Hf _].
Qed.

Lemma markerVisits_all (ast : node) :
  forallb (fun v => isMarker (fst v)) (markerVisits ast) = true.
Proof. apply forallb_filter_id. Qed.

Lemma getDeps_asset (o : Options) (b : OutputBundle) (target a : string) :
  lookup (chunkFile target) b = Some (Asset a) ->
  getDeps o target b =
    throw (TypeError "Cannot read properties of undefined (reading 'length')").
Proof.
  unfold chunkFile, getDeps. fold (relativeName target).
  destruct (endsWith ".js" (relativeName target)); cbn [negb]; now intros ->.
Qed.

Section Sites.

Variable parse : string -> string + node.
Variable o : Options.

(** The turn of the loop for a chunk that is parsed. *)
Lemma generateBundleStep_parsed
      (b : OutputBundle) (w : list warning) (k : string) (c : OutputChunk) (ast : node) :
  lookup k b = Some (Chunk c) ->
  dynamicImports c <> [] ->
  parse (code c) = inr ast ->
  generateBundleStep parse o (b, w) k =
  (ms <- fold_left (fun acc v => st <- acc ;; enterBundle o b (fst v) (snd v) st)
                   (markerVisits ast) (ok (MagicString.new (code c))) ;;
   ok (setCode k (MagicString.toString ms) b, w)).
Proof.
  intros Hl Hd Hp. unfold generateBundleStep. rewrite Hl, Hp.
  destruct (dynamicImports c); [congruence|]. cbn [List.length Nat.eqb].
  now rewrite walk_enterBundle.
Qed.

Lemma enterBundle_inert (b : OutputBundle) (v : node * option node) (ms : MagicString.t) :
  isMarker (fst v) = true -> inert v = true ->
  enterBundle o b (fst v) (snd v) ms = ok ms.
Proof.
  destruct v as [n p]. cbn [fst snd]. unfold inert. cbn [snd].
  destruct n as [s e raw lv| | |]; try discriminate. cbn [isMarker enterBundle].
  intros ->. destruct p as [[| |cs ce callee [|ie args]|]|]; try discriminate;
    [reflexivity|].
  destruct (importChunkNameOf ie) as [err|[name|]]; try discriminate; cbn [JS.bind ok].
  - intros H. apply negb_true_iff in H. now rewrite H.
  - reflexivity.
Qed.

(** X15.  Markers from which no name can be recovered - the call has no
    argument, the import has no literal as its source, the wrapper holds no
    literal, or the literal is falsy - are passed over: the code of the
    chunk stays as it is and no warning is given. *)
Theorem generateBundleStep_inert_markers
        (b : OutputBundle) (w : list warning) (k : string) (c : OutputChunk) (ast : node) :
  lookup k b = Some (Chunk c) ->
  parse (code c) = inr ast ->
  forallb inert (markerVisits ast) = true ->
  generateBundleStep parse o (b, w) k = ok (b, w).
Proof.
  intros Hl Hp Hi.
  destruct (dynamicImports c) as [|d ds] eqn:Hd.
  { unfold generateBundleStep. now rewrite Hl, Hd. }
  rewrite (@generateBundleStep_parsed b w k c ast Hl ltac:(congruence) Hp).
  assert (Hfold : forall vs ms,
             forallb (fun v => isMarker (fst v)) vs = true -> forallb inert vs = true ->
             fold_left (fun acc v => st <- acc ;; enterBundle o b (fst v) (snd v) st) vs
                       (ok ms) = ok ms).
  { induction vs as [|v vs IH]; intros ms Hm Hin; [reflexivity|].
    cbn [forallb] in Hm, Hin. apply andb_true_iff in Hm as [Hm1 Hm2].
    apply andb_true_iff in Hin as [Hi1 Hi2].
    cbn [fold_left JS.bind ok]. rewrite (enterBundle_inert b v ms Hm1 Hi1). now apply IH. }
  rewrite (Hfold _ _ (markerVisits_all ast) Hi). cbn [JS.bind ok].
  now rewrite toString_new, (@setCode_same b k c Hl).
Qed.

(** X16.  A marker literal that is not directly inside a call - the text of
    the marker used as an ordinary string, in a declaration or an array -
    makes the turn of the loop raise a [TypeError]: the first of the
    arguments of the parent is read without a check that there are any. *)
Theorem generateBundleStep_stray_marker
        (b : OutputBundle) (w : list warning) (k : string) (c : OutputChunk) (ast : node)
        (n parent : node) (rest : list (node * option node)) :
  lookup k b = Some (Chunk c) ->
  dynamicImports c <> [] ->
  parse (code c) = inr ast ->
  markerVisits ast = (n, Some parent) :: rest ->
  isCall (Some parent) = false ->
  generateBundleStep parse o (b, w) k =
    throw (TypeError "Cannot read properties of undefined (reading '0')").
Proof.
  intros Hl Hd Hp Hv Hc.
  rewrite (@generateBundleStep_parsed b w k c ast Hl Hd Hp), Hv.
  pose proof (@markerVisits_head ast _ _ Hv) as Hm. cbn [fst] in Hm.
  destruct n as [s e raw lv| | |]; try discriminate. cbn [isMarker] in Hm.
  cbn [fold_left JS.bind ok fst snd enterBundle]. rewrite Hm.
  destruct parent as [| |cs ce callee args|]; try discriminate;
    unfold throw; now rewrite fold_left_throw.
Qed.

(** X17.  A site whose target is the name of an asset of the bundle: the
    imports of the asset are read without a check of its type and the turn of
    the loop raises a [TypeError]. *)
Theorem generateBundleStep_asset_target
        (b : OutputBundle) (w : list warning) (k : string) (c : OutputChunk) (ast : node)
        (s2 e2 cs ce : nat) (lv : litval) (callee ie : node) (args : list node)
        (rest : list (node * option node)) (target a : string) :
  lookup k b = Some (Chunk c) ->
  dynamicImports c <> [] ->
  parse (code c) = inr ast ->
  markerVisits ast =
    (Literal s2 e2 MARKER lv, Some (CallExpression cs ce callee (ie :: args))) :: rest ->
  importChunkNameOf ie = ok (Some (LString target)) ->
  target <> EmptyString ->
  start ie < end_ ie -> end_ ie <= String.length (code c) ->
  lookup (chunkFile target) b = Some (Asset a) ->
  generateBundleStep parse o (b, w) k =
    throw (TypeError "Cannot read properties of undefined (reading 'length')").
Proof.
  intros Hl Hd Hp Hv Hn Ht H1 H2 Ha.
  rewrite (@generateBundleStep_parsed b w k c ast Hl Hd Hp), Hv.
  destruct (@overwrite_once (code c) (quoted target) (start ie) (end_ ie) H1 H2) as (ms & Hm).
  cbn [fold_left JS.bind ok fst snd enterBundle]. rewrite String.eqb_refl, Hn.
  cbn [JS.bind ok truthy toString].
  assert (Hne : String.eqb target EmptyString = false) by now apply String.eqb_neq.
  rewrite Hne. cbn [negb]. rewrite Hm. cbn [JS.bind ok].
  rewrite (getDeps_asset o b target Ha). unfold throw. cbn [JS.bind].
  now rewrite fold_left_throw.
Qed.

(** X18.  A site whose recovered name is truthy and not a string - a number,
    [true], a regular expression - makes the turn of the loop raise a
    [TypeError]: [getDeps] calls [startsWith] on it. *)
Theorem generateBundleStep_name_not_string
        (b : OutputBundle) (w : list warning) (k : string) (c : OutputChunk) (ast : node)
        (s2 e2 cs ce : nat) (lv name : litval) (callee ie : node) (args : list node)
        (rest : list (node * option node)) :
  lookup k b = Some (Chunk c) ->
  dynamicImports c <> [] ->
  parse (code c) = inr ast ->
  markerVisits ast =
    (Literal s2 e2 MARKER lv, Some (CallExpression cs ce callee (ie :: args))) :: rest ->
  importChunkNameOf ie = ok (Some name) ->
  truthy name = true -> isString name = false ->
  start ie < end_ ie -> end_ ie <= String.length (code c) ->
  generateBundleStep parse o (b, w) k =
    throw (TypeError "chunkName.startsWith is not a function").
Proof.
  intros Hl Hd Hp Hv Hn Ht Hs H1 H2.
  rewrite (@generateBundleStep_parsed b w k c ast Hl Hd Hp), Hv.
  destruct (@overwrite_once (code c) (quoted (toString name)) (start ie) (end_ ie) H1 H2)
    as (ms & Hm).
  cbn [fold_left JS.bind ok fst snd enterBundle]. rewrite String.eqb_refl, Hn.
  cbn [JS.bind ok]. rewrite Ht, Hm. cbn [JS.bind ok].
  destruct name; try discriminate; unfold throw; cbn [JS.bind]; now rewrite fold_left_throw.
Qed.

(** The turn of the loop on a chunk whose tree holds one marker, at a call
    from whose first argument a string is recovered. *)
Lemma generateBundleStep_named_site
      (b : OutputBundle) (w : list warning) (k : string) (c : OutputChunk) (ast : node)
      (s2 e2 cs ce : nat) (lv : litval) (callee ie : node) (args : list node)
      (target deps : string) :
  lookup k b = Some (Chunk c) ->
  dynamicImports c <> [] ->
  parse (code c) = inr ast ->
  markerVisits ast =
    [(Literal s2 e2 MARKER lv, Some (CallExpression cs ce callee (ie :: args)))] ->
  importChunkNameOf ie = ok (Some (LString target)) ->
  target <> EmptyString ->
  start ie < end_ ie -> end_ ie <= s2 -> s2 < e2 -> e2 <= String.length (code c) ->
  getDeps o target b = ok deps ->
  generateBundleStep parse o (b, w) k =
  ok (setCode k (slice 0 (start ie) (code c) ++ quoted target ++
                 slice (end_ ie) s2 (code c) ++ deps ++
                 slice e2 (String.length (code c)) (code c)) b, w).
Proof.
  intros Hl Hd Hp Hv Hn Ht H1 H2 H3 H4 Hdeps.
  rewrite (@generateBundleStep_parsed b w k c ast Hl Hd Hp), Hv.
  destruct (@overwrite_twice (code c) (quoted target) deps (start ie) (end_ ie) s2 e2
              H1 H2 H3 H4) as (ms1 & ms2 & Hm1 & Hm2 & Hstr).
  cbn [fold_left JS.bind ok fst snd enterBundle start end_]. rewrite String.eqb_refl, Hn.
  cbn [JS.bind ok truthy toString].
  assert (Hne : String.eqb target EmptyString = false) by now apply String.eqb_neq.
  rewrite Hne. cbn [negb]. rewrite Hm1. cbn [JS.bind ok]. rewrite Hdeps. cbn [JS.bind ok].
  rewrite Hm2. cbn [JS.bind ok]. now rewrite Hstr.
Qed.

(** X19.  In an output that is not an ES module the first argument of the
    call is a wrapper around the import.  When the last literal of the
    wrapper is a string, the whole wrapper is replaced by that string
    between double quotes - the call no longer holds the construct that
    loaded the module - and the marker by the dependencies of that name. *)
Theorem generateBundleStep_wrapped_site
        (b : OutputBundle) (w : list warning) (k : string) (c : OutputChunk) (ast : node)
        (s2 e2 cs ce : nat) (lv : litval) (callee wrapper : node) (args : list node)
        (target deps : string) :
  lookup k b = Some (Chunk c) ->
  dynamicImports c <> [] ->
  parse (code c) = inr ast ->
  markerVisits ast =
    [(Literal s2 e2 MARKER lv, Some (CallExpression cs ce callee (wrapper :: args)))] ->
  isImportExpression wrapper = false ->
  List.last (map Some (literalValues wrapper)) None = Some (LString target) ->
  target <> EmptyString ->
  start wrapper < end_ wrapper -> end_ wrapper <= s2 -> s2 < e2 ->
  e2 <= String.length (code c) ->
  getDeps o target b = ok deps ->
  generateBundleStep parse o (b, w) k =
  ok (setCode k (slice 0 (start wrapper) (code c) ++ quoted target ++
                 slice (end_ wrapper) s2 (code c) ++ deps ++
                 slice e2 (String.length (code c)) (code c)) b, w).
Proof.
  intros Hl Hd Hp Hv Hw Hlast Ht H1 H2 H3 H4 Hdeps.
  apply generateBundleStep_named_site with (ast := ast) (lv := lv) (cs := cs) (ce := ce)
    (callee := callee) (args := args); try assumption.
  rewrite <- Hlast. unfold importChunkNameOf, literalValues, walk.
  destruct wrapper; try discriminate; apply fold_enterWrapped.
Qed.

End Sites.

Lemma generateBundleStep_inert_markers_witness :
  generateBundleStep furtherParse defaultOptions (namedBundle, []) "main.js" =
    ok (namedBundle, []).
Proof.
  exact (@generateBundleStep_inert_markers furtherParse defaultOptions namedBundle []
           "main.js" _ namedAst eq_refl eq_refl eq_refl).
Defined.

Lemma generateBundleStep_stray_marker_witness :
  generateBundleStep furtherParse defaultOptions (strayBundle, []) "main.js" =
    throw (TypeError "Cannot read properties of undefined (reading '0')").
Proof.
  apply (@generateBundleStep_stray_marker furtherParse defaultOptions strayBundle []
           "main.js" _ strayAst _ _ _ eq_refl ltac:(discriminate) eq_refl eq_refl eq_refl).
Defined.

Lemma generateBundleStep_asset_target_witness :
  generateBundleStep sampleParse defaultOptions (assetBundle, []) "main.js" =
    throw (TypeError "Cannot read properties of undefined (reading 'length')").
Proof.
  apply (@generateBundleStep_asset_target sampleParse defaultOptions assetBundle []
           "main.js" siteChunk siteAst 29 46 0 47 _ _ _ _ _ "./t.js" "t.js"
           eq_refl ltac:(discriminate) eq_refl eq_refl eq_refl ltac:(discriminate)
           ltac:(cbn; lia) ltac:(cbn; lia) eq_refl).
Defined.

Lemma generateBundleStep_name_not_string_witness :
  generateBundleStep furtherParse defaultOptions (numberBundle, []) "main.js" =
    throw (TypeError "chunkName.startsWith is not a function").
Proof.
  apply (@generateBundleStep_name_not_string furtherParse defaultOptions numberBundle []
           "main.js" _ numberAst 32 49 0 50 _ (LNumber 1) _ numberImport _ _
           eq_refl ltac:(discriminate) eq_refl eq_refl eq_refl eq_refl eq_refl
           ltac:(cbn; lia) ltac:(cbn; lia)).
Defined.

Lemma generateBundleStep_wrapped_site_witness :
  generateBundleStep sampleParse defaultOptions (wrappedBundle, []) "main.js" =
    ok ([("main.js",
          Chunk (mkChunk "main.js" ("__loadDeps(" ++ quoted "/x.js" ++ ", );") [] ["x.js"]))],
        []).
Proof.
  apply (@generateBundleStep_wrapped_site sampleParse defaultOptions wrappedBundle []
           "main.js" _ wrappedAst 90 107 0 108 _ _ wrappedImport _ "/x.js" EmptyString
           eq_refl ltac:(discriminate) eq_refl eq_refl eq_refl eq_refl ltac:(discriminate)
           ltac:(cbn; lia) ltac:(cbn; lia) ltac:(lia) ltac:(cbn; lia) eq_refl).
Defined.

Lemma Done_new (code : string) : Done code 0 EmptyString (MagicString.new code).
Proof.
  split.
  - now rewrite toString_new, slice_full.
  - intros _. exists []. split; [intros c []|]. now rewrite slice_full.
Qed.

Lemma overwrite_next (code out x : string) (p s e : nat) (ms : MagicString.t) :
  Done code p out ms -> p <= s -> s < e -> e <= String.length code ->
  exists ms', MagicString.overwrite ms s e x = ok ms' /\
              Done code e (out ++ slice p s code ++ x) ms'.
Proof.
  intros [Hstr Hfront] Hps Hse Hen. set (n := String.length code) in *.
  destruct (Hfront ltac:(lia)) as (front & Hbefore & ->).
  assert (Hrest : slice p n code = slice p s code ++ slice s e code ++ slice e n code).
  { now rewrite !slice_append by (unfold n; lia). }
  assert (Hopt : forall a r, a < n -> [pristine a n r] = optional a n r).
  { intros a r Ha. unfold optional. now rewrite (proj2 (Nat.ltb_lt a n)). }
  assert (Hout : MagicString.chunksToString front = out).
  { unfold MagicString.toString in Hstr.
    cbn [MagicString.head MagicString.chunks MagicString.tail append] in Hstr.
    rewrite append_nil_r, chunksToString_app, (Hopt p _ ltac:(lia)) in Hstr.
    rewrite chunksToString_optional in Hstr by (apply slice_length; unfold n; lia).
    now apply append_cancel_r in Hstr. }
  pose proof (@overwrite_last p front Hbefore code EmptyString EmptyString
                (slice p s code) (slice s e code) (slice e n code) x s e n
                Hps Hse Hen eq_refl) as Hov.
  rewrite !slice_length in Hov by (unfold n; lia).
  specialize (Hov eq_refl eq_refl eq_refl). rewrite <- Hrest in Hov.
  eexists. split; [exact Hov|]. split.
  - unfold MagicString.toString.
    cbn [MagicString.head MagicString.chunks MagicString.tail append].
    rewrite append_nil_r, !chunksToString_app, Hout.
    rewrite !chunksToString_optional by (apply slice_length; unfold n; lia).
    cbn [MagicString.chunksToString fold_right MagicString.chunkToString overwritten
         MagicString.intro MagicString.content MagicString.outro append].
    now rewrite !append_nil_r, !append_assoc.
  - intros He. exists (front ++ optional p s (slice p s code) ++
                       [overwritten s e (slice s e code) x])%list. split.
    + intros c Hc. apply in_app_or in Hc as [Hc|Hc].
      { destruct (Hbefore c Hc). lia. }
      apply in_app_or in Hc as [Hc|[<-|[]]].
      * unfold optional in Hc. destruct (Nat.ltb p s); [|contradiction].
        destruct Hc as [<-|[]]. cbn. lia.
      * cbn. lia.
    + rewrite <- (Hopt e _ He). now rewrite <- !app_assoc.
Qed.

Section Edits.

Variable o : Options.
Variable b : OutputBundle.
Variable code : string.

Lemma enterBundle_edits (v : node * option node) (ev er : list edit) (p : nat)
      (out : string) (ms : MagicString.t) :
  isMarker (fst v) = true ->
  siteEdits o b v = Some ev ->
  ordered p (String.length code) (ev ++ er) = true ->
  Done code p out ms ->
  exists ms' p' out',
    enterBundle o b (fst v) (snd v) ms = ok ms' /\
    Done code p' out' ms' /\
    ordered p' (String.length code) er = true /\
    out ++ replaceRanges p (ev ++ er) code = out' ++ replaceRanges p' er code.
Proof.
  destruct v as [m parent]. cbn [fst snd]. intros Hm Hev Hord HD.
  destruct m as [s2 e2 raw lv| | |]; try discriminate. cbn [isMarker] in Hm.
  unfold siteEdits in Hev. cbn [fst snd] in Hev. cbn [enterBundle]. rewrite Hm.
  assert (Hsame : ev = [] ->
                  exists ms' p' out',
                    ok ms = ok ms' /\ Done code p' out' ms' /\
                    ordered p' (String.length code) er = true /\
                    out ++ replaceRanges p (ev ++ er) code = out' ++ replaceRanges p' er code).
  { intros ->. now exists ms, p, out. }
  destruct parent as [[| |cs ce callee [|ie args]|]|]; try discriminate.
  { injection Hev as <-. now apply Hsame. }
  destruct (importChunkNameOf ie) as [err|[name|]] eqn:Hn; try discriminate;
    cbn [JS.bind ok].
  2:{ injection Hev as <-. now apply Hsame. }
  destruct name as [|bo|z|target|pat fl];
    try (destruct (truthy _) eqn:Ht; [discriminate|]; injection Hev as <-; now apply Hsame).
  cbn [truthy toString].
  destruct (String.eqb target EmptyString) eqn:Hne; cbn [negb].
  { injection Hev as <-. now apply Hsame. }
  destruct (getDeps o target b) as [err|deps] eqn:Hdeps; [discriminate|].
  injection Hev as <-. cbn [app ordered start end_] in Hord.
  repeat match goal with
         | H : andb _ _ = true |- _ => apply andb_true_iff in H as [? ?]
         | H : Nat.leb _ _ = true |- _ => apply Nat.leb_le in H
         | H : Nat.ltb _ _ = true |- _ => apply Nat.ltb_lt in H
         end.
  destruct (@overwrite_next code out (quoted target) p (start ie) (end_ ie) ms HD
              ltac:(lia) ltac:(lia) ltac:(lia)) as (ms1 & Hov1 & HD1).
  destruct (@overwrite_next code _ deps (end_ ie) s2 e2 ms1 HD1
              ltac:(lia) ltac:(lia) ltac:(lia)) as (ms2 & Hov2 & HD2).
  rewrite Hov1. cbn [JS.bind ok]. try rewrite Hdeps. cbn [JS.bind ok].
  change (start (Literal s2 e2 raw lv)) with s2. change (end_ (Literal s2 e2 raw lv)) with e2.
  rewrite Hov2.
  eexists ms2, e2, _. split; [reflexivity|]. split; [exact HD2|]. split; [assumption|].
  cbn [app replaceRanges start end_]. now rewrite !append_assoc.
Qed.

Lemma fold_enterBundle_edits (vs : list (node * option node)) :
  forall (es : list edit) (p : nat) (out : string) (ms : MagicString.t),
    forallb (fun v => isMarker (fst v)) vs = true ->
    editsOf o b vs = Some es ->
    ordered p (String.length code) es = true ->
    Done code p out ms ->
    exists ms',
      fold_left (fun acc v => st <- acc ;; enterBundle o b (fst v) (snd v) st) vs (ok ms) =
        ok ms' /\
      MagicString.toString ms' = out ++ replaceRanges p es code.
Proof.
  induction vs as [|v vs IH]; intros es p out ms Hm Hes Hord HD.
  - injection Hes as <-. exists ms. split; [reflexivity|]. exact (proj1 HD).
  - cbn [forallb] in Hm. apply andb_true_iff in Hm as [Hm1 Hm2].
    cbn [editsOf] in Hes.
    destruct (siteEdits o b v) as [ev|] eqn:Hev; [|discriminate].
    destruct (editsOf o b vs) as [er|] eqn:Her; [|discriminate].
    injection Hes as <-.
    destruct (@enterBundle_edits v ev er p out ms Hm1 Hev Hord HD)
      as (ms1 & p1 & out1 & Hstep & HD1 & Hord1 & Heq).
    destruct (IH er p1 out1 ms1 Hm2 eq_refl Hord1 HD1) as (ms' & Hfold & Hstr).
    exists ms'. split.
    + cbn [fold_left JS.bind ok]. now rewrite Hstep.
    + now rewrite Hstr, Heq.
Qed.

End Edits.

Section Rewrites.

Variable parse : string -> string + node.
Variable o : Options.

(** X20.  The turn of [generateBundle] for a chunk with any number of calls
    of the loader.  When no visit of a marker raises and the ranges to
    replace follow one another in the code, the new code of the chunk is the
    old code with, at every call from which a name is recovered, the first
    argument replaced by the name between double quotes and the marker by
    the dependencies of the name; the calls from which no name is recovered
    and every other character are as before. *)
Theorem generateBundleStep_rewrites_sites
        (b : OutputBundle) (w : list warning) (k : string) (c : OutputChunk) (ast : node)
        (es : list edit) :
  lookup k b = Some (Chunk c) ->
  dynamicImports c <> [] ->
  parse (code c) = inr ast ->
  editsOf o b (markerVisits ast) = Some es ->
  ordered 0 (String.length (code c)) es = true ->
  generateBundleStep parse o (b, w) k =
    ok (setCode k (replaceRanges 0 es (code c)) b, w).
Proof.
  intros Hl Hd Hp Hes Hord.
  rewrite (@generateBundleStep_parsed parse o b w k c ast Hl Hd Hp).
  destruct (@fold_enterBundle_edits o b (code c) (markerVisits ast) es 0 EmptyString
              (MagicString.new (code c)) (markerVisits_all ast) Hes Hord
              (Done_new (code c))) as (ms & Hfold & Hstr).
  rewrite Hfold. cbn [JS.bind ok]. now rewrite Hstr.
Qed.

End Rewrites.

Lemma generateBundleStep_rewrites_sites_witness :
  generateBundleStep furtherParse defaultOptions (sitesBundle, []) "main.js" =
    ok (setCode "main.js"
          ("__loadDeps(" ++ quoted "./t.js" ++ ", " ++ quoted "./a.js" ++ "," ++
           quoted "./b.js" ++ ");" ++
           "__loadDeps(import(name), " ++ MARKER ++ ");" ++
           "__loadDeps(" ++ quoted "./u.js" ++ ", " ++ quoted "./c.js" ++ ");")
          sitesBundle, []).
Proof.
  exact (@generateBundleStep_rewrites_sites furtherParse defaultOptions sitesBundle []
           "main.js" _ sitesAst
           [(11, 27, quoted "./t.js"); (29, 46, quoted "./a.js" ++ "," ++ quoted "./b.js");
            (103, 119, quoted "./u.js"); (121, 138, quoted "./c.js")]
           eq_refl ltac:(discriminate) eq_refl eq_refl eq_refl).
Defined.

Lemma lookup_setCode_other (k k' text : string) (b : OutputBundle) :
  k' <> k -> lookup k' (setCode k text b) = lookup k' b.
Proof.
  intros H. induction b as [|[k1 v] b IH]; [reflexivity|]. cbn [setCode].
  destruct (String.eqb_spec k1 k) as [->|Hne]; cbn [lookup].
  - now destruct (String.eqb_spec k k'); [congruence|].
  - now destruct (String.eqb k1 k').
Qed.

Lemma lookup_NoDup (b : OutputBundle) :
  NoDup (map fst b) -> forall kv, In kv b -> lookup (fst kv) b = Some (snd kv).
Proof.
  induction b as [|[k v] b IH]; intros Hnd kv Hin; [contradiction|].
  cbn [map fst] in Hnd. inversion Hnd as [|? ? Hnotin Hnd']; subst. cbn [lookup].
  destruct Hin as [<-|Hin].
  - cbn [fst snd]. now rewrite String.eqb_refl.
  - destruct (String.eqb_spec k (fst kv)) as [Heq|Hne].
    + exfalso. apply Hnotin. rewrite Heq. now apply in_map.
    + now apply IH.
Qed.

Section Warnings.

Variable parse : string -> string + node.
Variable o : Options.

Lemma generateBundleLoop_warnings (rest : OutputBundle) :
  NoDup (map fst rest) ->
  forall (b1 : OutputBundle) (w1 : list warning) (b' : OutputBundle) (w' : list warning),
    (forall kv, In kv rest -> lookup (fst kv) b1 = Some (snd kv)) ->
    generateBundleLoop parse o (map fst rest) (b1, w1) = ok (b', w') ->
    w' = (w1 ++ warningsOf parse rest)%list.
Proof.
  induction rest as [|[k v] rest IH]; intros Hnd b1 w1 b' w' Hl H.
  - cbn in H. injection H as _ <-. cbn. now rewrite app_nil_r.
  - cbn [map fst generateBundleLoop] in H. cbn [map fst] in Hnd.
    inversion Hnd as [|? ? Hnotin Hnd']; subst.
    pose proof (Hl (k, v) (or_introl eq_refl)) as Hk. cbn [fst snd] in Hk.
    destruct (generateBundleStep parse o (b1, w1) k) as [e|[b2 w2]] eqn:Hs; [discriminate|].
    cbn [JS.bind ok] in H.
    assert (Hstep : w2 = (w1 ++ warningsOf parse [(k, v)])%list /\
                    forall kv, In kv rest -> lookup (fst kv) b2 = Some (snd kv)).
    { unfold generateBundleStep in Hs. rewrite Hk in Hs.
      unfold warningsOf. cbn [flat_map snd]. rewrite app_nil_r.
      assert (Hrest : forall kv, In kv rest -> lookup (fst kv) b1 = Some (snd kv)).
      { intros kv Hin. apply Hl. now right. }
      destruct v as [c|a].
      - destruct (Nat.eqb (List.length (dynamicImports c)) 0).
        + injection Hs as <- <-. now rewrite app_nil_r.
        + destruct (parse (code c)) as [err|ast].
          * injection Hs as <- <-. now split.
          * destruct (walk _ _ _) as [e|ms]; [discriminate|]. cbn [JS.bind ok] in Hs.
            injection Hs as <- <-. rewrite app_nil_r. split; [reflexivity|].
            intros kv Hin. rewrite lookup_setCode_other; [now apply Hrest|].
            intros Heq. apply Hnotin. rewrite <- Heq. now apply in_map.
      - injection Hs as <- <-. now rewrite app_nil_r. }
    destruct Hstep as [-> Hl2].
    rewrite (IH Hnd' b2 _ b' w' Hl2 H). rewrite <- app_assoc. f_equal.
    unfold warningsOf. cbn [flat_map]. now rewrite app_nil_r.
Qed.

(** X21.  The warnings of [generateBundle].  The keys of a bundle are the
    property names of an object, so no key is there twice; then a run that
    does not raise gives one warning for each chunk with dynamic imports
    whose code the parser refuses, in the order of the bundle, and no other
    warning. *)
Theorem generateBundle_warnings (b b' : OutputBundle) (w : list warning) :
  NoDup (map fst b) ->
  generateBundle parse o b = ok (b', w) ->
  w = warningsOf parse b.
Proof.
  intros Hnd H. unfold generateBundle in H.
  exact (@generateBundleLoop_warnings b Hnd b [] b' w (@lookup_NoDup b Hnd) H).
Qed.

End Warnings.

Lemma generateBundle_warnings_witness :
  [parseWarning "broken.js" "SyntaxError: Unexpected token"] =
    warningsOf sampleParse brokenBundle.
Proof.
  apply (@generateBundle_warnings sampleParse defaultOptions brokenBundle brokenBundle).
  - repeat constructor; cbn; intuition discriminate.
  - reflexivity.
Defined.

(** * The sites of a chunk *)

Lemma editsOf_In (o : Options) (b : OutputBundle) (vs : list (node * option node)) :
  forall (es : list edit) (v : node * option node),
    editsOf o b vs = Some es -> In v vs ->
    exists before ev after,
      siteEdits o b v = Some ev /\ es = (before ++ ev ++ after)%list.
Proof.
  induction vs as [|v0 vs IH]; intros es v Hes Hin; [contradiction|].
  cbn [editsOf] in Hes.
  destruct (siteEdits o b v0) as [e0|] eqn:H0; [|discriminate].
  destruct (editsOf o b vs) as [er|] eqn:Hr; [|discriminate].
  injection Hes as <-. destruct Hin as [<-|Hin].
  - exists [], e0, er. split; [exact H0 | reflexivity].
  - destruct (IH er v eq_refl Hin) as (before & ev & after & Hev & ->).
    exists (e0 ++ before)%list, ev, after. split; [exact Hev|]. now rewrite <- app_assoc.
Qed.

Lemma siteEdits_named (o : Options) (b : OutputBundle) (marker : node) (cs ce : nat)
      (callee importExpr : node) (args : list node) (target deps : string) :
  importChunkNameOf importExpr = ok (Some (LString target)) ->
  target <> EmptyString ->
  getDeps o target b = ok deps ->
  siteEdits o b (marker, Some (CallExpression cs ce callee (importExpr :: args))) =
    Some [(start importExpr, end_ importExpr, quoted target);
          (start marker, end_ marker, deps)].
Proof.
  intros Hn Ht Hd. unfold siteEdits. cbn [fst snd]. rewrite Hn. unfold ok.
  assert (Hne : String.eqb target EmptyString = false) by now apply String.eqb_neq.
  rewrite Hne, Hd. reflexivity.
Qed.

Lemma replaceRanges_split (code x y : string) (s1 e1 s2 e2 : nat) (after : list edit) :
  forall (before : list edit) (p : nat),
    replaceRanges p (before ++ [(s1, e1, x); (s2, e2, y)] ++ after)%list code =
    replaceRangesTo p before s1 code ++ x ++ slice e1 s2 code ++ y ++
    replaceRanges e2 after code.
Proof.
  induction before as [|[[s e] z] before IH]; intros p.
  - reflexivity.
  - cbn [app replaceRanges replaceRangesTo]. rewrite IH. now rewrite !append_assoc.
Qed.

(** What the visit of a marker at a call with a name does to the code. *)
Lemma named_site_rewrite (o : Options) (b : OutputBundle) (code : string)
      (vs : list (node * option node)) (es : list edit) (marker : node) (cs ce : nat)
      (callee importExpr : node) (args : list node) (target deps : string) :
  editsOf o b vs = Some es ->
  In (marker, Some (CallExpression cs ce callee (importExpr :: args))) vs ->
  importChunkNameOf importExpr = ok (Some (LString target)) ->
  target <> EmptyString ->
  getDeps o target b = ok deps ->
  exists before after,
    es = (before ++ [(start importExpr, end_ importExpr, quoted target);
                     (start marker, end_ marker, deps)] ++ after)%list /\
    replaceRanges 0 es code =
      replaceRangesTo 0 before (start importExpr) code ++ quoted target ++
      slice (end_ importExpr) (start marker) code ++ deps ++
      replaceRanges (end_ marker) after code.
Proof.
  intros Hes Hin Hn Ht Hd.
  destruct (@editsOf_In o b vs es _ Hes Hin) as (before & ev & after & Hev & ->).
  rewrite (@siteEdits_named o b marker cs ce callee importExpr args target deps Hn Ht Hd)
    in Hev.
  injection Hev as <-. exists before, after. split; [reflexivity|].
  apply replaceRanges_split.
Qed.


Section Runs.

Variable parse : string -> string + node.
Variable o : Options.

(** The turn of the loop for a chunk that is parsed, when no visit of a
    marker raises and the ranges to replace follow one another. *)
Lemma generateBundleStep_replaceRanges
      (b : OutputBundle) (w : list warning) (k : string) (c : OutputChunk) (ast : node)
      (es : list edit) :
  lookup k b = Some (Chunk c) ->
  dynamicImports c <> [] ->
  parse (code c) = inr ast ->
  editsOf o b (markerVisits ast) = Some es ->
  ordered 0 (String.length (code c)) es = true ->
  generateBundleStep parse o (b, w) k =
    ok (setCode k (replaceRanges 0 es (code c)) b, w).
Proof.
  intros Hl Hd Hp Hes Hord.
  rewrite (@generateBundleStep_parsed parse o b w k c ast Hl Hd Hp).
  destruct (@fold_enterBundle_edits o b (code c) (markerVisits ast) es 0 EmptyString
              (MagicString.new (code c)) (markerVisits_all ast) Hes Hord
              (Done_new (code c))) as (ms & Hfold & Hstr).
  rewrite Hfold. cbn [JS.bind ok]. now rewrite Hstr.
Qed.



(** C1, amended.  Take a chunk with dynamic imports whose code parses, in
    which no visit of a marker raises and the ranges to replace follow one
    another; [es] are the replacements of the visits, in their order.  The
    turn of the loop gives the chunk the code in which these ranges are
    replaced.  At every marker that is an argument of a call from whose
    first argument the string [target] is recovered - the source of a
    dynamic import or the last literal of a wrapper - where [target], without
    a leading [./], is the name with extension of a chunk [t] of the bundle
    that has static imports, the new code reads: [target] between double
    quotes in place of the first argument, the text that stood between the
    first argument and the marker, and in place of the marker the imports of
    [t], in their order, each one prefixed by [./], between double quotes,
    joined by commas. *)
Theorem finalize_rewrites_site
        (b : OutputBundle) (w : list warning) (k : string) (c : OutputChunk) (ast : node)
        (es : list edit) :
  lookup k b = Some (Chunk c) ->
  dynamicImports c <> [] ->
  parse (code c) = inr ast ->
  editsOf o b (markerVisits ast) = Some es ->
  ordered 0 (String.length (code c)) es = true ->
  generateBundleStep parse o (b, w) k =
    ok (setCode k (replaceRanges 0 es (code c)) b, w) /\
  (forall marker cs ce callee importExpr args target t,
      In (marker, Some (CallExpression cs ce callee (importExpr :: args)))
         (markerVisits ast) ->
      importChunkNameOf importExpr = ok (Some (LString target)) ->
      target <> EmptyString ->
      endsWith ".js" (relativeName target) = true ->
      lookup (relativeName target) b = Some (Chunk t) ->
      imports t <> [] ->
      exists before after,
        es = (before ++
              [(start importExpr, end_ importExpr, quoted target);
               (start marker, end_ marker,
                join "," (map (fun s => quoted ("./" ++ s)) (imports t)))] ++
              after)%list /\
        replaceRanges 0 es (code c) =
          replaceRangesTo 0 before (start importExpr) (code c) ++
          quoted target ++
          slice (end_ importExpr) (start marker) (code c) ++
          join "," (map (fun s => quoted ("./" ++ s)) (imports t)) ++
          replaceRanges (end_ marker) after (code c)).
Proof.
  intros Hl Hd Hp Hes Hord. split.
  - now apply generateBundleStep_replaceRanges with (ast := ast).
  - intros marker cs ce callee importExpr args target t Hin Hn Ht He Hlt Hi.
    apply named_site_rewrite with (o := o) (b := b) (vs := markerVisits ast)
      (cs := cs) (ce := ce) (callee := callee) (args := args); try assumption.
    now apply getDeps_with_extension.
Qed.

(** C3, amended.  With the same chunk, at every marker that is an argument
    of a call from whose first argument a string [target] is recovered, when
    the bundle has no chunk for [target] or a chunk without static imports:
    [getDeps] returns the empty string, and the new code reads [target]
    between double quotes in place of the first argument, the text that
    stood between the first argument and the marker, which holds the comma,
    and nothing in place of the marker. *)
Theorem finalize_site_without_imports
        (b : OutputBundle) (w : list warning) (k : string) (c : OutputChunk) (ast : node)
        (es : list edit) :
  lookup k b = Some (Chunk c) ->
  dynamicImports c <> [] ->
  parse (code c) = inr ast ->
  editsOf o b (markerVisits ast) = Some es ->
  ordered 0 (String.length (code c)) es = true ->
  generateBundleStep parse o (b, w) k =
    ok (setCode k (replaceRanges 0 es (code c)) b, w) /\
  (forall marker cs ce callee importExpr args target,
      In (marker, Some (CallExpression cs ce callee (importExpr :: args)))
         (markerVisits ast) ->
      importChunkNameOf importExpr = ok (Some (LString target)) ->
      target <> EmptyString ->
      noImports b target = true ->
      getDeps o target b = ok EmptyString /\
      exists before after,
        es = (before ++
              [(start importExpr, end_ importExpr, quoted target);
               (start marker, end_ marker, EmptyString)] ++
              after)%list /\
        replaceRanges 0 es (code c) =
          replaceRangesTo 0 before (start importExpr) (code c) ++
          quoted target ++
          slice (end_ importExpr) (start marker) (code c) ++
          replaceRanges (end_ marker) after (code c)).
Proof.
  intros Hl Hd Hp Hes Hord. split.
  - now apply generateBundleStep_replaceRanges with (ast := ast).
  - intros marker cs ce callee importExpr args target Hin Hn Ht Hno.
    pose proof (getDeps_noImports o b target Hno) as Hdeps. split; [exact Hdeps|].
    exact (@named_site_rewrite o b (code c) (markerVisits ast) es marker cs ce callee
             importExpr args target EmptyString Hes Hin Hn Ht Hdeps).
Qed.


End Runs.

Lemma finalize_rewrites_site_witness :
  generateBundleStep furtherParse defaultOptions (sitesBundle, []) "main.js" =
    ok (setCode "main.js"
          ("__loadDeps(" ++ quoted "./t.js" ++ ", " ++ quoted "./a.js" ++ "," ++
           quoted "./b.js" ++ ");" ++
           "__loadDeps(import(name), " ++ MARKER ++ ");" ++
           "__loadDeps(" ++ quoted "./u.js" ++ ", " ++ quoted "./c.js" ++ ");")
          sitesBundle, []).
Proof.
  exact (proj1 (@finalize_rewrites_site furtherParse defaultOptions sitesBundle []
                  "main.js" _ sitesAst
                  [(11, 27, quoted "./t.js");
                   (29, 46, quoted "./a.js" ++ "," ++ quoted "./b.js");
                   (103, 119, quoted "./u.js"); (121, 138, quoted "./c.js")]
                  eq_refl ltac:(discriminate) eq_refl eq_refl eq_refl)).
Defined.

(** C1 as stated fails: the imports of [t.js] are [a.js] and [b.js]; the
    call does not carry them as they are in the graph. *)
Lemma finalize_rewrites_site_counterexample :
  imports targetChunk = ["a.js"; "b.js"] /\
  getDeps defaultOptions "./t.js" siteBundle = ok (quoted "./a.js" ++ "," ++ quoted "./b.js") /\
  generateBundle sampleParse defaultOptions siteBundle =
    ok ([("main.js",
          Chunk (mkChunk "main.js"
                   ("__loadDeps(" ++ quoted "./t.js" ++ ", " ++
                    quoted "./a.js" ++ "," ++ quoted "./b.js" ++ ");") [] ["t.js"]));
         ("t.js", Chunk targetChunk)], []) /\
  generateBundle sampleParse defaultOptions siteBundle <>
    ok ([("main.js",
          Chunk (mkChunk "main.js"
                   ("__loadDeps(" ++ quoted "./t.js" ++ ", " ++
                    verbatimLiterals (imports targetChunk) ++ ");") [] ["t.js"]));
         ("t.js", Chunk targetChunk)], []).
Proof.
  split; [reflexivity | split; [reflexivity | split; [reflexivity | discriminate]]].
Qed.

Lemma finalize_site_without_imports_witness :
  generateBundleStep sampleParse defaultOptions (bareBundle, []) "main.js" =
    ok ([("main.js",
          Chunk (mkChunk "main.js" ("__loadDeps(" ++ quoted "./t.js" ++ ", );") [] ["t.js"]));
         ("t.js", Chunk bareChunk)], []) /\
  getDeps defaultOptions "./t.js" bareBundle = ok EmptyString.
Proof.
  destruct (@finalize_site_without_imports sampleParse defaultOptions bareBundle []
              "main.js" siteChunk siteAst
              [(11, 27, quoted "./t.js"); (29, 46, EmptyString)]
              eq_refl ltac:(discriminate) eq_refl eq_refl eq_refl) as (Hstep & Hsite).
  split; [exact Hstep|].
  refine (proj1 (Hsite (Literal 29 46 MARKER (LString "__IMPORT_DEPS__")) 0 47
                   (Other "Identifier" 0 10 [])
                   (ImportExpression 11 27 (Some (Literal 18 26 "'./t.js'" (LString "./t.js"))))
                   [Literal 29 46 MARKER (LString "__IMPORT_DEPS__")] "./t.js"
                   _ eq_refl _ eq_refl)).
  - left. reflexivity.
  - discriminate.
Defined.

(** C3 as stated fails: the call keeps its comma. *)
Lemma finalize_site_without_imports_counterexample :
  noImports bareBundle "./t.js" = true /\
  generateBundle sampleParse defaultOptions bareBundle =
    ok ([("main.js",
          Chunk (mkChunk "main.js" ("__loadDeps(" ++ quoted "./t.js" ++ ", );") [] ["t.js"]));
         ("t.js", Chunk bareChunk)], []) /\
  generateBundle sampleParse defaultOptions bareBundle <>
    ok ([("main.js",
          Chunk (mkChunk "main.js" ("__loadDeps(" ++ quoted "./t.js" ++ ");") [] ["t.js"]));
         ("t.js", Chunk bareChunk)], []).
Proof.
  split; [reflexivity | split; [reflexivity | discriminate]].
Qed.


